(** * Visor de transcripciones: pairing, decoding, encoding and escaping

    A shallow embedding of [visor_transcripciones.py].  Python [str] values
    are sequences of Unicode code points, [bytes] values are sequences of
    bytes; the dictionaries of [emparejar_archivos] are finite maps. *)

From Stdlib Require Import NArith ZArith Ascii String Strings.Byte List Sorting.Sorted Lia.
From stdpp Require Import base decidable option list sorting countable gmap.
Import ListNotations.

Local Open Scope N_scope.
#[local] Set Warnings "-clear-no-such-hyp".

(** ** Strings and bytes *)

(** A Python [str]: a list of code points. *)
Abbreviation char := N (only parsing).
Abbreviation str := (list N) (only parsing).
Abbreviation bytes := (list byte) (only parsing).

(** An ASCII literal of the source, as a [str]. *)
Definition lit (s : string) : str :=
  map N_of_ascii (list_ascii_of_string s).
Arguments lit _%_string.

Definition c_LF : char := 10.
Definition c_CR : char := 13.
Definition c_comilla : char := 34.      (* the double quote *)
Definition c_dolar : char := 36.
Definition c_amp : char := 38.
Definition c_apostrofo : char := 39.
Definition c_asterisco : char := 42.
Definition c_punto : char := 46.
Definition c_menor : char := 60.
Definition c_igual : char := 61.
Definition c_mayor : char := 62.
Definition c_barra_inv : char := 92.    (* the backslash *)
Definition c_acento_grave : char := 96. (* the backtick *)
Definition c_llave : char := 123.       (* the opening brace *)

(** [s.startswith(p)]. *)
Fixpoint startswith (p s : str) : bool :=
  match p, s with
  | [], _ => true
  | _ :: _, [] => false
  | a :: p', b :: s' => (a =? b) && startswith p' s'
  end.

(** [s.replace(old, new)] for a non-empty [old]: a left-to-right scan that
    replaces every non-overlapping occurrence.  [salto] counts the
    characters of the current occurrence that are still to be skipped. *)
Fixpoint replace_desde (old new : str) (salto : nat) (s : str) : str :=
  match s with
  | [] => []
  | c :: s' =>
      match salto with
      | S k => replace_desde old new k s'
      | O =>
          if startswith old s
          then new ++ replace_desde old new (Nat.pred (length old)) s'
          else c :: replace_desde old new O s'
      end
  end.

Definition replace (old new s : str) : str := replace_desde old new O s.

(** [",\n".join(xs)]. *)
Fixpoint join (sep : str) (xs : list str) : str :=
  match xs with
  | [] => []
  | [x] => x
  | x :: xs' => x ++ sep ++ join sep xs'
  end.

(** ** Content escaper *)

(** [html.escape(s)] with its default [quote=True]. *)
Definition html_escape (s : str) : str :=
  let s := replace [c_amp] (lit "&amp;") s in
  let s := replace [c_menor] (lit "&lt;") s in
  let s := replace [c_mayor] (lit "&gt;") s in
  let s := replace [c_comilla] (lit "&quot;") s in
  let s := replace [c_apostrofo] (lit "&#x27;") s in
  s.

(** The second pass of [generar_html]:
    [texto_escaped.replace("\\", "\\\\").replace("`", "\\`").replace("$", "\\$")]. *)
Definition escapar_js (texto_escaped : str) : str :=
  replace [c_dolar] [c_barra_inv; c_dolar]
    (replace [c_acento_grave] [c_barra_inv; c_acento_grave]
       (replace [c_barra_inv] [c_barra_inv; c_barra_inv] texto_escaped)).

(** [texto_js] as computed in [generar_html] from the decoded [texto]. *)
Definition texto_js (texto : str) : str :=
  let texto_escaped := html_escape texto in
  escapar_js texto_escaped.

(** The entry appended to [paginas_js] for one page. *)
Definition pagina_js (nombre b64 tjs : str) : str :=
  lit "  {" ++ [c_LF] ++
  lit "    nombre: `" ++ html_escape nombre ++ lit "`," ++ [c_LF] ++
  lit "    imagen: " ++ [c_comilla] ++ lit "data:image/jpeg;base64," ++ b64
    ++ [c_comilla] ++ lit "," ++ [c_LF] ++
  lit "    texto: `" ++ tjs ++ lit "`" ++ [c_LF] ++
  lit "  }".

(** ** Codecs

    The decoders behind [open(ruta, "r", encoding=enc)] and
    [bytes.decode]. *)

Inductive codificacion := utf_8 | latin_1 | cp1252.

(** The [errors] argument of a decoder. *)
Inductive errores := strict | replace_errors.

Definition c_reemplazo : char := 0xFFFD.

(** What a decoder does at an undecodable sequence: [strict] raises
    [UnicodeDecodeError] (no result), [replace_errors] emits U+FFFD and goes
    on with [sigue], the decoding of what follows the sequence. *)
Definition mal_formado (e : errores) (sigue : option str) : option str :=
  match e with
  | strict => None
  | replace_errors => cons c_reemplazo <$> sigue
  end.

Definition es_continuacion (b : byte) : bool :=
  (0x80 <=? Byte.to_N b) && (Byte.to_N b <? 0xC0).

Definition bits_cont (b : byte) : N := N.land (Byte.to_N b) 0x3F.

(** The UTF-8 decoder.  Overlong forms, surrogates and code points above
    U+10FFFF are rejected by the bounds on the second byte; an error covers
    the bytes of the sequence read so far. *)
Fixpoint utf8_decode (e : errores) (bs : bytes) : option str :=
  match bs with
  | [] => Some []
  | b0 :: r0 =>
      let n0 := Byte.to_N b0 in
      if n0 <? 0x80 then cons n0 <$> utf8_decode e r0
      else if n0 <? 0xC2 then mal_formado e (utf8_decode e r0)
      else if n0 <? 0xE0 then
        match r0 with
        | [] => mal_formado e (Some [])
        | b1 :: r1 =>
            if es_continuacion b1
            then cons (N.lor (N.shiftl (N.land n0 0x1F) 6) (bits_cont b1))
                   <$> utf8_decode e r1
            else mal_formado e (utf8_decode e r0)
        end
      else if n0 <? 0xF0 then
        match r0 with
        | [] => mal_formado e (Some [])
        | b1 :: r1 =>
            let n1 := Byte.to_N b1 in
            if negb (es_continuacion b1)
               || (if n1 <? 0xA0 then n0 =? 0xE0 else n0 =? 0xED)
            then mal_formado e (utf8_decode e r0)
            else
              match r1 with
              | [] => mal_formado e (Some [])
              | b2 :: r2 =>
                  if es_continuacion b2
                  then cons (N.lor (N.shiftl (N.land n0 0x0F) 12)
                               (N.lor (N.shiftl (bits_cont b1) 6) (bits_cont b2)))
                         <$> utf8_decode e r2
                  else mal_formado e (utf8_decode e r1)
              end
        end
      else if n0 <? 0xF5 then
        match r0 with
        | [] => mal_formado e (Some [])
        | b1 :: r1 =>
            let n1 := Byte.to_N b1 in
            if negb (es_continuacion b1)
               || (if n1 <? 0x90 then n0 =? 0xF0 else n0 =? 0xF4)
            then mal_formado e (utf8_decode e r0)
            else
              match r1 with
              | [] => mal_formado e (Some [])
              | b2 :: r2 =>
                  if es_continuacion b2
                  then
                    match r2 with
                    | [] => mal_formado e (Some [])
                    | b3 :: r3 =>
                        if es_continuacion b3
                        then cons (N.lor (N.shiftl (N.land n0 0x07) 18)
                                     (N.lor (N.shiftl (bits_cont b1) 12)
                                        (N.lor (N.shiftl (bits_cont b2) 6)
                                           (bits_cont b3))))
                               <$> utf8_decode e r3
                        else mal_formado e (utf8_decode e r2)
                    end
                  else mal_formado e (utf8_decode e r1)
              end
        end
      else mal_formado e (utf8_decode e r0)
  end.

(** latin-1 maps every byte to the code point of the same value. *)
Definition latin1_decode (bs : bytes) : option str := Some (map Byte.to_N bs).

(** Bytes 0x80..0x9F of cp1252; five of them are undefined. *)
Definition cp1252_alto : list (option N) :=
  [ Some 0x20AC; None;        Some 0x201A; Some 0x0192;
    Some 0x201E; Some 0x2026; Some 0x2020; Some 0x2021;
    Some 0x02C6; Some 0x2030; Some 0x0160; Some 0x2039;
    Some 0x0152; None;        Some 0x017D; None;
    None;        Some 0x2018; Some 0x2019; Some 0x201C;
    Some 0x201D; Some 0x2022; Some 0x2013; Some 0x2014;
    Some 0x02DC; Some 0x2122; Some 0x0161; Some 0x203A;
    Some 0x0153; None;        Some 0x017E; Some 0x0178 ].

Definition cp1252_car (b : byte) : option N :=
  let n := Byte.to_N b in
  if (n <? 0x80) || (0xA0 <=? n) then Some n
  else nth (N.to_nat (n - 0x80)) cp1252_alto None.

Fixpoint cp1252_decode (e : errores) (bs : bytes) : option str :=
  match bs with
  | [] => Some []
  | b :: r =>
      match cp1252_car b with
      | Some c => cons c <$> cp1252_decode e r
      | None => mal_formado e (cp1252_decode e r)
      end
  end.

Definition decode (enc : codificacion) (e : errores) (bs : bytes) : option str :=
  match enc with
  | utf_8 => utf8_decode e bs
  | latin_1 => latin1_decode bs
  | cp1252 => cp1252_decode e bs
  end.

(** Text mode with the default [newline=None]: "\r\n" and "\r" are read
    as "\n". *)
Fixpoint universal_newlines (s : str) : str :=
  match s with
  | [] => []
  | c :: r =>
      if c =? c_CR then
        match r with
        | d :: r' => if d =? c_LF then c_LF :: universal_newlines r'
                     else c_LF :: universal_newlines r
        | [] => [c_LF]
        end
      else c :: universal_newlines r
  end.

Definition byte_de_N (n : N) : byte := default x00 (Byte.of_N n).

(** The UTF-8 encoder of [open(ruta_salida, "w", encoding="utf-8")];
    a surrogate cannot be encoded. *)
Definition utf8_encode_car (c : char) : option bytes :=
  if c <? 0x80 then Some [byte_de_N c]
  else if c <? 0x800 then
    Some [byte_de_N (0xC0 + c / 64); byte_de_N (0x80 + c mod 64)]
  else if c <? 0x10000 then
    if (0xD800 <=? c) && (c <? 0xE000) then None
    else Some [byte_de_N (0xE0 + c / 4096); byte_de_N (0x80 + (c / 64) mod 64);
               byte_de_N (0x80 + c mod 64)]
  else if c <? 0x110000 then
    Some [byte_de_N (0xF0 + c / 262144); byte_de_N (0x80 + (c / 4096) mod 64);
          byte_de_N (0x80 + (c / 64) mod 64); byte_de_N (0x80 + c mod 64)]
  else None.

Fixpoint utf8_encode (s : str) : option bytes :=
  match s with
  | [] => Some []
  | c :: r =>
      match utf8_encode_car c, utf8_encode r with
      | Some b, Some br => Some (b ++ br)
      | _, _ => None
      end
  end.

(** ** Base 64 *)

Definition b64_tabla : bytes :=
  list_byte_of_string
    "ABCDEFGHIJKLMNOPQRSTUVWXYZabcdefghijklmnopqrstuvwxyz0123456789+/".

Definition b_igual : byte := "=".

Definition sexteto (n : N) : byte := nth (N.to_nat n) b64_tabla b_igual.

(** [base64.b64encode(datos)]: every three bytes give four sextets; a
    final group of one or two bytes is padded with "=". *)
Fixpoint b64encode (datos : bytes) : bytes :=
  match datos with
  | [] => []
  | [x] =>
      let a := Byte.to_N x in
      [sexteto (a / 4); sexteto ((a mod 4) * 16); b_igual; b_igual]
  | [x; y] =>
      let a := Byte.to_N x in
      let b := Byte.to_N y in
      [sexteto (a / 4); sexteto ((a mod 4) * 16 + b / 16);
       sexteto ((b mod 16) * 4); b_igual]
  | x :: y :: z :: resto =>
      let a := Byte.to_N x in
      let b := Byte.to_N y in
      let c := Byte.to_N z in
      sexteto (a / 4) :: sexteto ((a mod 4) * 16 + b / 16)
        :: sexteto ((b mod 16) * 4 + c / 64) :: sexteto (c mod 64)
        :: b64encode resto
  end.

(** ** Files, paths and exceptions *)

(** A path returned by [glob.glob(os.path.join(carpeta, patron))]: the
    directory it was asked for and the entry found in it.  [Path(ruta).stem]
    is computed on [archivo], the final component. *)
Record ruta := { carpeta : str; archivo : str }.

#[global] Instance ruta_eq_dec : EqDecision ruta.
Proof. solve_decision. Defined.

(** The part of the file system the program reads and writes:
    [listdir d] are the entries of directory [d] in the order the operating
    system enumerates them (none when [d] cannot be listed), [contenido r]
    the bytes of the readable file [r], [escribible r] whether [r] can be
    opened for writing, and [carpetas_de_patron p] the directories that
    [glob] finds for a folder name [p] read as a pattern, in the order it
    finds them. *)
Record sistema := {
  listdir : str -> list str;
  contenido : ruta -> option bytes;
  escribible : ruta -> bool;
  carpetas_de_patron : str -> list str
}.

Inductive excepcion :=
| OSError (r : ruta)
| UnicodeDecodeError
| UnicodeEncodeError
| KeyError (k : str).

(** A computation that returns an [A] or raises. *)
Definition resultado (A : Type) : Type := excepcion + A.

Definition devolver {A} (a : A) : resultado A := inr a.
Definition lanzar {A} (e : excepcion) : resultado A := inl e.

Definition ligar {A B} (m : resultado A) (k : A -> resultado B) : resultado B :=
  match m with
  | inl e => inl e
  | inr a => k a
  end.

Notation "x <-- m ;; k" := (ligar m (fun x => k))
  (at level 100, m at next level, right associativity).

(** [for x in xs: ys.append(f(x))] where [f] may raise. *)
Fixpoint para_cada {A B} (f : A -> resultado B) (xs : list A) : resultado (list B) :=
  match xs with
  | [] => devolver []
  | x :: xs' =>
      y <-- f x ;;
      ys <-- para_cada f xs' ;;
      devolver (y :: ys)
  end.

(** [with open(r, "rb") as f: f.read()]. *)
Definition leer_bytes (fs : sistema) (r : ruta) : resultado bytes :=
  match contenido fs r with
  | None => lanzar (OSError r)
  | Some datos => devolver datos
  end.

(** [with open(r, "r", encoding=enc, errors=e) as f: f.read()]. *)
Definition abrir_leer (fs : sistema) (r : ruta) (enc : codificacion) (e : errores)
  : resultado str :=
  datos <-- leer_bytes fs r ;;
  match decode enc e datos with
  | None => lanzar UnicodeDecodeError
  | Some s => devolver (universal_newlines s)
  end.

(** [with open(r, "w", encoding="utf-8") as f: f.write(s)]: opening creates
    or truncates the file, writing encodes [s]. *)
Definition escribir (fs : sistema) (r : ruta) (s : str) : sistema * resultado unit :=
  if escribible fs r then
    let con (datos : bytes) :=
      {| listdir := listdir fs;
         contenido := fun r' => if decide (r' = r) then Some datos else contenido fs r';
         escribible := escribible fs;
         carpetas_de_patron := carpetas_de_patron fs |} in
    match utf8_encode s with
    | Some datos => (con datos, devolver tt)
    | None => (con [], lanzar UnicodeEncodeError)
    end
  else (fs, lanzar (OSError r)).

(** ** Image encoder *)

Definition imagen_a_base64 (fs : sistema) (ruta_imagen : ruta) : resultado str :=
  datos <-- leer_bytes fs ruta_imagen ;;
  match utf8_decode strict (b64encode datos) with
  | None => lanzar UnicodeDecodeError
  | Some s => devolver s
  end.

(** ** Text decoder *)

(** The loop [for enc in encs: try: return read(enc) except (UnicodeDecodeError,
    UnicodeError): continue], followed by [ultimo] when no encoding of [encs]
    decodes.  Any other exception propagates. *)
Fixpoint leer_con (fs : sistema) (ruta_txt : ruta) (encs : list codificacion)
    (ultimo : resultado str) : resultado str :=
  match encs with
  | [] => ultimo
  | enc :: encs' =>
      match abrir_leer fs ruta_txt enc strict with
      | inr s => devolver s
      | inl UnicodeDecodeError | inl UnicodeEncodeError =>
          leer_con fs ruta_txt encs' ultimo
      | inl e => lanzar e
      end
  end.

Definition leer_texto (fs : sistema) (ruta_txt : ruta) : resultado str :=
  leer_con fs ruta_txt [utf_8; latin_1; cp1252]
    (abrir_leer fs ruta_txt utf_8 replace_errors).

(** ** File pairer *)

(** [fnmatch] for patterns made of literal characters and [*]. *)
Fixpoint fnmatch (patron nombre_archivo : str) : bool :=
  match patron with
  | [] => match nombre_archivo with [] => true | _ => false end
  | p :: patron' =>
      if p =? c_asterisco then
        (fix estrella (n : str) : bool :=
           fnmatch patron' n
           || match n with
              | [] => false
              | _ :: n' => estrella n'
              end) nombre_archivo
      else
        match nombre_archivo with
        | [] => false
        | c :: n' => (p =? c) && fnmatch patron' n'
        end
  end.

(** [glob._ishidden]. *)
Definition ishidden (s : str) : bool :=
  match s with
  | c :: _ => c =? c_punto
  | [] => false
  end.

(** [glob.has_magic]: the text holds one of the pattern characters
    [*], [?] and [[]. *)
Definition has_magic (s : str) : bool :=
  existsb (fun c => (c =? c_asterisco) || (c =? 63) || (c =? 91)) s.

(** The directories [glob] looks into for a folder name, which is not
    escaped: the folder itself when its name holds no pattern character,
    and otherwise the directories the name matches as a pattern. *)
Definition carpetas_de (fs : sistema) (dir : str) : list str :=
  if has_magic dir then carpetas_de_patron fs dir else [dir].

(** [glob.glob(os.path.join(dir, patron))]: for each directory of
    [carpetas_de], in order, its entries that match, in enumeration order;
    entries that start with a dot only match a pattern that does.  Names are
    compared as they are, as [fnmatch] does on POSIX. *)
Definition glob (fs : sistema) (dir patron : str) : list ruta :=
  flat_map
    (fun d =>
       map (fun n => {| carpeta := d; archivo := n |})
         (List.filter
            (fun n => (ishidden patron || negb (ishidden n)) && fnmatch patron n)
            (listdir fs d)))
    (carpetas_de fs dir).

(** [s.rfind(c)]. *)
Fixpoint rfind (c : char) (s : str) : option nat :=
  match s with
  | [] => None
  | x :: s' =>
      match rfind c s' with
      | Some i => Some (S i)
      | None => if x =? c then Some O else None
      end
  end.

(** [Path(r).stem]: the final component up to its last dot, unless that dot
    is the first or the last character. *)
Definition stem (r : ruta) : str :=
  let name := archivo r in
  match rfind c_punto name with
  | Some i =>
      if (Nat.ltb 0 i) && (Nat.ltb i (length name - 1)) then take i name else name
  | None => name
  end.

(** The order of Python on [str]: lexicographic on code points. *)
Fixpoint str_leb (a b : str) : bool :=
  match a, b with
  | [], _ => true
  | _ :: _, [] => false
  | x :: a', y :: b' =>
      if x <? y then true else if x =? y then str_leb a' b' else false
  end.

Definition str_le (a b : str) : Prop := str_leb a b = true.
Definition str_lt (a b : str) : Prop := str_le a b /\ a <> b.

#[global] Instance str_le_dec : RelDecision str_le.
Proof. intros a b. unfold str_le. apply _. Defined.

Record par := { nombre : str; ruta_img : ruta; ruta_txt : ruta }.

Section Emparejar.

(** [str.lower], the case mapping of the Unicode tables. *)
Variable lower : str -> str.

(** The inner loop, [d[Path(ruta).stem.lower()] = ruta] for every path in
    turn: a later path overwrites an earlier one of the same key. *)
Definition anotar (d : gmap (list N) ruta) (rutas : list ruta) : gmap (list N) ruta :=
  foldl (fun d ruta => <[lower (stem ruta) := ruta]> d) d rutas.

(** One collecting loop, over the patterns and, for each, over its paths. *)
Definition recoger (fs : sistema) (dir : str) (exts : list str) : gmap (list N) ruta :=
  foldl (fun d ext => anotar d (glob fs dir ext)) ∅ exts.

Definition exts_img : list str :=
  [lit "*.jpg"; lit "*.JPG"; lit "*.jpeg"; lit "*.JPEG"].
Definition exts_txt : list str := [lit "*.txt"; lit "*.TXT"].

Definition emparejar_archivos (fs : sistema) (carpeta_img carpeta_txt : str)
  : resultado (list par) :=
  let imagenes := recoger fs carpeta_img exts_img in
  let textos := recoger fs carpeta_txt exts_txt in
  let nombres_comunes :=
    merge_sort str_le (elements (dom imagenes ∩ dom textos)) in
  para_cada
    (fun k =>
       match imagenes !! k, textos !! k with
       | Some img, Some txt =>
           devolver {| nombre := stem img; ruta_img := img; ruta_txt := txt |}
       | _, _ => lanzar (KeyError k)
       end)
    nombres_comunes.

End Emparejar.

(** ** Artifact assembler *)

Section Generar.

(** The fixed presentation template, before and after [{paginas_str}]. *)
Variables plantilla_inicio plantilla_fin : str.

Definition preparar_pagina (fs : sistema) (p : par) : resultado str :=
  b64 <-- imagen_a_base64 fs (ruta_img p) ;;
  texto <-- leer_texto fs (ruta_txt p) ;;
  devolver (pagina_js (nombre p) b64 (texto_js texto)).

(** The pages are prepared first; the output file is opened afterwards.
    The progress lines printed on the way are left out. *)
Definition generar_html (fs : sistema) (pares : list par) (ruta_salida : ruta)
  : sistema * resultado unit :=
  match para_cada (preparar_pagina fs) pares with
  | inl e => (fs, lanzar e)
  | inr paginas_js =>
      let paginas_str := join (lit "," ++ [c_LF]) paginas_js in
      let html_contenido := plantilla_inicio ++ paginas_str ++ plantilla_fin in
      escribir fs ruta_salida html_contenido
  end.

End Generar.

(** ** Reference readers of the generated text

    The inverse directions the properties are stated against: how a browser
    reads a data URI payload, a template literal and markup text. *)

(** The value of a base-64 character. *)
Definition valor_b64 (c : char) : option N :=
  if (65 <=? c) && (c <=? 90) then Some (c - 65)
  else if (97 <=? c) && (c <=? 122) then Some (c - 71)
  else if (48 <=? c) && (c <=? 57) then Some (c + 4)
  else if c =? 43 then Some 62
  else if c =? 47 then Some 63
  else None.

(** Standard base-64 decoding: groups of four characters, "=" padding only
    in the last group. *)
Fixpoint b64decode (s : str) : option bytes :=
  match s with
  | [] => Some []
  | c0 :: c1 :: c2 :: c3 :: resto =>
      v0 ← valor_b64 c0;
      v1 ← valor_b64 c1;
      if c2 =? c_igual then
        match resto with
        | [] => if c3 =? c_igual then Some [byte_de_N (v0 * 4 + v1 / 16)] else None
        | _ => None
        end
      else
        v2 ← valor_b64 c2;
        if c3 =? c_igual then
          match resto with
          | [] => Some [byte_de_N (v0 * 4 + v1 / 16);
                        byte_de_N ((v1 mod 16) * 16 + v2 / 4)]
          | _ => None
          end
        else
          v3 ← valor_b64 c3;
          bs ← b64decode resto;
          Some (byte_de_N (v0 * 4 + v1 / 16)
                  :: byte_de_N ((v1 mod 16) * 16 + v2 / 4)
                  :: byte_de_N ((v2 mod 4) * 64 + v3) :: bs)
  | _ => None
  end.

(** The characters the second escaping pass protects. *)
Definition es_especial_js (c : char) : bool :=
  (c =? c_barra_inv) || (c =? c_acento_grave) || (c =? c_dolar).

(** The string value of the body of a backtick-delimited template literal:
    a backslash followed by a backslash, a backtick or a dollar sign stands
    for that character.  There is no value ([None]) when the body holds an
    unescaped backtick (the literal would end there), an unescaped "${" (a
    substitution would start there), or another escape sequence. *)
Fixpoint valor_plantilla (s : str) : option str :=
  match s with
  | [] => Some []
  | c :: r =>
      if c =? c_barra_inv then
        match r with
        | d :: r' => if es_especial_js d then cons d <$> valor_plantilla r' else None
        | [] => None
        end
      else if c =? c_acento_grave then None
      else if (c =? c_dolar)
              && match r with d :: _ => d =? c_llave | [] => false end then None
      else cons c <$> valor_plantilla r
  end.

(** The character references [html.escape] produces. *)
Definition entidades : list (str * char) :=
  [ (lit "&amp;", c_amp); (lit "&lt;", c_menor); (lit "&gt;", c_mayor);
    (lit "&quot;", c_comilla); (lit "&#x27;", c_apostrofo) ].

Fixpoint entidad_en (tabla : list (str * char)) (s : str) : option (nat * char) :=
  match tabla with
  | [] => None
  | (e, c) :: tabla' =>
      if startswith e s then Some (Nat.pred (length e), c) else entidad_en tabla' s
  end.

(** Markup text as displayed: every character reference of [entidades] is
    read as its character. *)
Fixpoint html_unescape_desde (salto : nat) (s : str) : str :=
  match s with
  | [] => []
  | c :: s' =>
      match salto with
      | S k => html_unescape_desde k s'
      | O =>
          match entidad_en entidades s with
          | Some (k, x) => x :: html_unescape_desde k s'
          | None => c :: html_unescape_desde O s'
          end
      end
  end.

Definition html_unescape (s : str) : str := html_unescape_desde O s.

(** One-pass forms of the two escaping passes. *)
Definition escape_car_html (c : char) : str :=
  if c =? c_amp then lit "&amp;"
  else if c =? c_menor then lit "&lt;"
  else if c =? c_mayor then lit "&gt;"
  else if c =? c_comilla then lit "&quot;"
  else if c =? c_apostrofo then lit "&#x27;"
  else [c].

Definition escape_car_js (c : char) : str :=
  if es_especial_js c then [c_barra_inv; c] else [c].

(** [str.lower] on ASCII text: only the letters A..Z change. *)
Definition ascii_lower (s : str) : str :=
  map (fun c => if (65 <=? c) && (c <=? 90) then c + 32 else c) s.

Definition es_ascii (s : str) : Prop := Forall (fun c => c < 128) s.

(** The paths in the order the collecting loop meets them: pattern by
    pattern, and in directory order within a pattern. *)
Definition enumerar (fs : sistema) (dir : str) (exts : list str) : list ruta :=
  concat (map (glob fs dir) exts).

(** The MatchKeys of a directory: the lower-cased stems of the files the
    patterns discover. *)
Definition claves (lower : str -> str) (fs : sistema) (dir : str) (exts : list str)
  : gset (list N) :=
  list_to_set (map (fun r => lower (stem r)) (enumerar fs dir exts)).

Definition clave (lower : str -> str) (p : par) : str := lower (nombre p).

(** [Path(n).suffix]: the name from its last dot on, unless that dot is the
    first or the last character. *)
Definition sufijo (n : str) : str :=
  match rfind c_punto n with
  | Some i =>
      if (Nat.ltb 0 i) && (Nat.ltb i (length n - 1)) then drop i n else []
  | None => []
  end.

(** A file of one of the extensions [exts], written there in lower case,
    whatever the letter case of its own extension. *)
Definition es_de_extension (exts : list str) (n : str) : bool :=
  existsb (fun e => bool_decide (ascii_lower (sufijo n) = c_punto :: e)) exts.

(** The extensions of the image files and of the text files. *)
Definition extensiones_imagen : list str := [lit "jpg"; lit "jpeg"].
Definition extensiones_texto : list str := [lit "txt"].

(** The keys present in a directory, read off its listing and not off the
    pairing code: the lower-cased stems of its entries of the extensions
    [exts], in any letter case. *)
Definition claves_presentes (lower : str -> str) (fs : sistema) (dir : str)
    (exts : list str) : gset (list N) :=
  list_to_set
    (map (fun n => lower (stem {| carpeta := dir; archivo := n |}))
       (List.filter (es_de_extension exts) (listdir fs dir))).

(** Every entry of the extensions [exts] is visible (no leading dot) and
    spells its extension in one of the ways [escritas]. *)
Definition bien_escritas (exts escritas : list str) (entradas : list str) : bool :=
  forallb
    (fun n =>
       implb (es_de_extension exts n)
         (negb (ishidden n)
          && existsb (fun e => bool_decide (sufijo n = c_punto :: e)) escritas))
    entradas.

(** ** Example directories *)

Definition directorio (imgs txts : list str) : sistema :=
  {| listdir := fun d =>
       if decide (d = lit "imgs") then imgs
       else if decide (d = lit "txts") then txts else [];
     contenido := fun _ => None;
     escribible := fun _ => true;
     carpetas_de_patron := fun _ => [] |}.

Definition en_imgs (n : string) : ruta := {| carpeta := lit "imgs"; archivo := lit n |}.
Definition en_txts (n : string) : ruta := {| carpeta := lit "txts"; archivo := lit n |}.

Definition ejemplo_spec : sistema :=
  directorio [lit "pagina_001.jpg"; lit "PAGINA_002.JPG"; lit "extra.jpg"]
             [lit "pagina_001.txt"; lit "pagina_002.txt"].

Definition un_archivo (r : ruta) (datos : list byte) : sistema :=
  {| listdir := fun _ => [];
     contenido := fun r' => if decide (r' = r) then Some datos else None;
     escribible := fun _ => true;
     carpetas_de_patron := fun _ => [] |}.

Definition par_ejemplo (n : string) : par :=
  {| nombre := lit n;
     ruta_img := en_imgs (n ++ ".jpg");
     ruta_txt := en_txts (n ++ ".txt") |}.

Definition ejemplo_duplicadas : sistema :=
  directorio [lit "A.JPG"; lit "a.jpg"; lit "b.jpg"] [lit "a.txt"].

(** ** Folder prompt and entry point *)

(** [str.isspace] on one character: the characters [str.strip()] removes. *)
Definition isspace (c : char) : bool :=
  ((0x09 <=? c) && (c <=? 0x0D)) || ((0x1C <=? c) && (c <=? 0x20))
  || (c =? 0x85) || (c =? 0xA0) || (c =? 0x1680)
  || ((0x2000 <=? c) && (c <=? 0x200A))
  || (c =? 0x2028) || (c =? 0x2029) || (c =? 0x202F) || (c =? 0x205F)
  || (c =? 0x3000).

(** [s.lstrip(...)], [s.rstrip(...)] and [s.strip(...)]; [quita] tells the
    characters to remove. *)
Fixpoint lstrip_con (quita : char -> bool) (s : str) : str :=
  match s with
  | [] => []
  | c :: s' => if quita c then lstrip_con quita s' else s
  end.

Definition rstrip_con (quita : char -> bool) (s : str) : str :=
  rev (lstrip_con quita (rev s)).

Definition strip_con (quita : char -> bool) (s : str) : str :=
  rstrip_con quita (lstrip_con quita s).

(** [s.strip()]. *)
Definition strip (s : str) : str := strip_con isspace s.

(** The characters of the second [strip]: the two quote characters. *)
Definition es_comilla (c : char) : bool := (c =? c_apostrofo) || (c =? c_comilla).

Definition c_espacio : char := 32.
Definition c_diagonal : char := 47.     (* the slash *)

(** What [obtener_carpeta] makes of a typed line: blanks and then quotes
    removed at both ends, and every backslash-space read as a space. *)
Definition normalizar_carpeta (linea : str) : str :=
  let carpeta := strip linea in
  let carpeta := strip_con es_comilla carpeta in
  replace [c_barra_inv; c_espacio] [c_espacio] carpeta.

(** The line printed for a rejected folder. *)
Definition aviso_carpeta (carpeta : str) : str :=
  lit "  Error: '" ++ carpeta ++ lit "' no es una carpeta v" ++ [225]
    ++ lit "lida. Int" ++ [233] ++ lit "ntalo de nuevo." ++ [c_LF].

(** [obtener_carpeta(mensaje)] on the lines still to be read from standard
    input.  Each turn of the loop writes the prompt and reads one line;
    [input] raises [EOFError] when no line is left ([None]).  The result
    comes with the lines left unread and with what was written to standard
    output, in order.  [isdir] is [os.path.isdir]. *)
Fixpoint obtener_carpeta (isdir : str -> bool) (mensaje : str) (entrada : list str)
  : option str * list str * list str :=
  match entrada with
  | [] => (None, [], [mensaje])
  | linea :: resto =>
      let carpeta := normalizar_carpeta linea in
      if isdir carpeta then (Some carpeta, resto, [mensaje])
      else
        let '(r, resto', escrito) := obtener_carpeta isdir mensaje resto in
        (r, resto', mensaje :: aviso_carpeta carpeta :: escrito)
  end.

(** [s.endswith(suf)]. *)
Definition endswith (suf s : str) : bool := startswith (rev suf) (rev s).

(** The output name [main] makes of the typed line. *)
Definition nombre_de_salida (linea : str) : str :=
  let nombre_salida := strip linea in
  let nombre_salida :=
    match nombre_salida with
    | [] => lit "visor_transcripciones.html"
    | _ => nombre_salida
    end in
  if endswith (lit ".html") nombre_salida then nombre_salida
  else nombre_salida ++ lit ".html".

(** [os.path.join(a, b)] on POSIX. *)
Definition os_path_join (a b : str) : str :=
  if startswith [c_diagonal] b then b
  else if match a with [] => true | _ => endswith [c_diagonal] a end then a ++ b
  else a ++ [c_diagonal] ++ b.

(** [os.path.split(p)] on POSIX, as a path of the file system: what
    precedes the last slash, without trailing slashes unless it is made of
    slashes only, and what follows it. *)
Fixpoint hasta_diagonal (s : str) : str :=
  match s with
  | [] => []
  | c :: s' => if c =? c_diagonal then [] else c :: hasta_diagonal s'
  end.

Definition basename (p : str) : str := rev (hasta_diagonal (rev p)).

Definition dirname (p : str) : str :=
  let head := take (length p - length (basename p)) p in
  if forallb (fun c => c =? c_diagonal) head then head
  else rstrip_con (fun c => c =? c_diagonal) head.

Definition ruta_de_cadena (p : str) : ruta :=
  {| carpeta := dirname p; archivo := basename p |}.

(** How a run of [main] ends: normally, by [sys.exit(codigo)], by an
    exception of the functions it calls, or by [EOFError] of [input]. *)
Inductive fin_de_main :=
| Termina
| SystemExit (codigo : N)
| Excepcion (e : excepcion)
| EOFError.

Definition mensaje_img : str :=
  lit "Carpeta con las im" ++ [225] ++ lit "genes JPG: ".
Definition mensaje_txt : str := lit "Carpeta con los archivos TXT: ".

Section Principal.

(** [str.lower], [os.path.isdir], [os.getcwd()] and the template. *)
Variable lower : str -> str.
Variable isdir : str -> bool.
Variable cwd : str.
Variables plantilla_inicio plantilla_fin : str.

(** [main()], on the file system and the lines of standard input.  What it
    prints is left out. *)
Definition main (fs : sistema) (entrada : list str) : sistema * fin_de_main :=
  match obtener_carpeta isdir mensaje_img entrada with
  | (None, _, _) => (fs, EOFError)
  | (Some carpeta_img, entrada, _) =>
      match obtener_carpeta isdir mensaje_txt entrada with
      | (None, _, _) => (fs, EOFError)
      | (Some carpeta_txt, entrada, _) =>
          match emparejar_archivos lower fs carpeta_img carpeta_txt with
          | inl e => (fs, Excepcion e)
          | inr [] => (fs, SystemExit 1)
          | inr pares =>
              match entrada with
              | [] => (fs, EOFError)
              | linea :: _ =>
                  let nombre_salida := nombre_de_salida linea in
                  let ruta_salida :=
                    ruta_de_cadena (os_path_join cwd nombre_salida) in
                  match generar_html plantilla_inicio plantilla_fin fs pares
                          ruta_salida with
                  | (fs', inl e) => (fs', Excepcion e)
                  | (fs', inr _) => (fs', Termina)
                  end
              end
          end
      end
  end.

End Principal.

(** The paths of a command line: blanks written as backslash-space. *)
Definition escapar_espacios (p : str) : str :=
  flat_map (fun c => if c =? c_espacio then [c_barra_inv; c_espacio] else [c]) p.

(** A code point that UTF-8 can encode. *)
Definition codificable (c : char) : Prop :=
  c < 0x110000 /\ ~ (0xD800 <= c < 0xE000).

(** What [leer_texto] makes of the bytes of a readable file. *)
Definition decodificar_texto (datos : bytes) : str :=
  match utf8_decode strict datos with
  | Some t => universal_newlines t
  | None => universal_newlines (map Byte.to_N datos)
  end.

(** The page of a pair whose image holds [img] and whose text holds [txt]. *)
Definition pagina_de_bytes (p : par) (img txt : bytes) : str :=
  pagina_js (nombre p) (map Byte.to_N (b64encode img))
    (texto_js (decodificar_texto txt)).

(** A pair whose two files can be read. *)
Definition legible (fs : sistema) (p : par) : Prop :=
  is_Some (contenido fs (ruta_img p)) /\ is_Some (contenido fs (ruta_txt p)).

(** ** Auxiliary predicates *)

(** What the decoder needs of one character of the table. *)
Definition sexteto_bien (n : N) : bool :=
  match valor_b64 (Byte.to_N (sexteto n)) with
  | Some v => (v =? n) && negb (Byte.to_N (sexteto n) =? c_igual)
              && (Byte.to_N (sexteto n) <? 128)
  | None => false
  end.

(** What a pair is made of: the two dictionary entries of its key. *)
Definition par_de_clave (lower : list N -> list N) (fs : sistema)
    (carpeta_img carpeta_txt : list N) (p : par) : Prop :=
  recoger lower fs carpeta_img exts_img !! clave lower p = Some (ruta_img p)
  /\ recoger lower fs carpeta_txt exts_txt !! clave lower p = Some (ruta_txt p)
  /\ nombre p = stem (ruta_img p).

(** The reading under which the produced names themselves, rather than
    their lower-cased forms, are the common keys. *)
Definition nombres_son_claves (lower : list N -> list N) (fs : sistema)
    (carpeta_img carpeta_txt : list N) : Prop :=
  forall pares,
    emparejar_archivos lower fs carpeta_img carpeta_txt = devolver pares ->
    forall n, n ∈ map nombre pares <->
              n ∈ claves_presentes lower fs carpeta_img extensiones_imagen
                    ∩ claves_presentes lower fs carpeta_txt extensiones_texto.

(** A file the patterns [*.ext] discover: a visible entry [pre.ext] of the
    directory, with stem [pre]. *)
Definition descubierto (fs : sistema) (dir : list N) (exts : list (list N))
    (r : ruta) : Prop :=
  exists pre ext,
    ext ∈ exts
    /\ carpeta r ∈ carpetas_de fs dir
    /\ archivo r = pre ++ c_punto :: ext
    /\ archivo r ∈ listdir fs (carpeta r)
    /\ ishidden (archivo r) = false
    /\ stem r = pre.

Definition extensiones_img : list (list N) :=
  [lit "jpg"; lit "JPG"; lit "jpeg"; lit "JPEG"].
Definition extensiones_txt : list (list N) := [lit "txt"; lit "TXT"].

Definition ejemplo_textos_duplicados : sistema :=
  directorio [lit "a.jpg"] [lit "A.TXT"; lit "a.txt"].

Definition es_marcado (c : N) : bool :=
  (c =? c_menor) || (c =? c_mayor) || (c =? c_comilla) || (c =? c_apostrofo).

(** The page of each pair, in the order of the pairs. *)
Definition paginas_de (fs : sistema) (pares : list par) (paginas : list (list N))
  : Prop :=
  Forall2 (fun p pagina =>
             exists img txt,
               contenido fs (ruta_img p) = Some img
               /\ contenido fs (ruta_txt p) = Some txt
               /\ pagina = pagina_de_bytes p img txt)
    pares paginas.

Definition dos_archivos : sistema :=
  {| listdir := fun _ => [];
     contenido := fun r =>
       if decide (r = en_imgs "a.jpg") then Some [xff; xd8]
       else if decide (r = en_txts "a.txt") then Some [x3c; xe9]
       else None;
     escribible := fun _ => true;
     carpetas_de_patron := fun _ => [] |}.

Definition rechazada (isdir : list N -> bool) (linea : list N) : Prop :=
  isdir (normalizar_carpeta linea) = false.

(** What the loop writes for the lines it rejects. *)
Definition avisos (mensaje : list N) (rechazadas : list (list N)) : list (list N) :=
  flat_map (fun l => [mensaje; aviso_carpeta (normalizar_carpeta l)]) rechazadas.

Definition solo_imgs (d : list N) : bool := bool_decide (d = lit "/tmp/imgs").

(** The two ends of a text. *)
Definition en_el_borde (m : list N) (c : N) : Prop := head m = Some c \/ last m = Some c.

Definition imgs_o_txts (d : list N) : bool :=
  bool_decide (d = lit "imgs") || bool_decide (d = lit "txts").

(** A system with one image and one text, listed in two folders. *)
Definition carpetas_con_un_par : sistema :=
  {| listdir := fun d =>
       if decide (d = lit "imgs") then [lit "a.jpg"]
       else if decide (d = lit "txts") then [lit "a.txt"] else [];
     contenido := fun r =>
       if decide (r = en_imgs "a.jpg") then Some [xff; xd8]
       else if decide (r = en_txts "a.txt") then Some [x3c; xe9]
       else None;
     escribible := fun _ => true;
     carpetas_de_patron := fun _ => [] |}.

(** A character of the base-64 alphabet, or the padding. *)
Definition es_base64 (c : char) : bool :=
  match valor_b64 c with Some _ => true | None => c =? c_igual end.

(** The two files of [dos_archivos], where nothing can be written. *)
Definition solo_lectura : sistema :=
  {| listdir := listdir dos_archivos;
     contenido := contenido dos_archivos;
     escribible := fun _ => false;
     carpetas_de_patron := fun _ => [] |}.

(** The extensions the patterns spell, against the extensions meant. *)
Definition escrituras_de (exts escritas : list (list N)) : Prop :=
  Forall (fun e => ~ In c_asterisco e /\ ~ In c_punto e /\ e <> []
                   /\ In (ascii_lower e) exts) escritas.

(** A folder im[g]s beside a folder imgs: as a pattern, the name im[g]s
    matches imgs and not itself. *)
Definition carpetas_con_patron : sistema :=
  {| listdir := fun d =>
       if decide (d = lit "imgs") then [lit "a.jpg"]
       else if decide (d = lit "im[g]s") then [lit "b.jpg"]
       else if decide (d = lit "txts") then [lit "a.txt"; lit "b.txt"] else [];
     contenido := fun _ => None;
     escribible := fun _ => true;
     carpetas_de_patron := fun p => if decide (p = lit "im[g]s") then [lit "imgs"] else [] |}.

(** The reading of the first encoding of [encs] that decodes [datos], and,
    when none does, the utf-8 reading with undecodable sequences replaced.
    A reading is the decoded text with its line ends translated. *)
Fixpoint es_primera_lectura (encs : list codificacion) (datos : bytes) (s : str)
  : Prop :=
  match encs with
  | [] => Some s = universal_newlines <$> utf8_decode replace_errors datos
  | enc :: encs' =>
      match decode enc strict datos with
      | Some t => s = universal_newlines t
      | None => es_primera_lectura encs' datos s
      end
  end.

(** The decoding under the first encoding of [encs] that decodes. *)
Fixpoint primera_decodificacion (encs : list codificacion) (datos : bytes)
  : option str :=
  match encs with
  | [] => None
  | enc :: encs' =>
      match decode enc strict datos with
      | Some t => Some t
      | None => primera_decodificacion encs' datos
      end
  end.

(** The reading under which the text decoded by the first encoding that
    decodes is returned unchanged. *)
Definition devuelve_sin_cambios (fs : sistema) (r : ruta) (datos : bytes) : Prop :=
  forall t, primera_decodificacion [utf_8; latin_1; cp1252] datos = Some t ->
            leer_texto fs r = devolver t.

(** The reading under which the result is the utf-8 decoding of valid utf-8
    and the latin-1 decoding of anything else. *)
Definition devuelve_decodificacion (fs : sistema) (r : ruta) (datos : bytes) : Prop :=
  leer_texto fs r
  = devolver match utf8_decode strict datos with
             | Some t => t
             | None => map Byte.to_N datos
             end.

(** * Properties *)

(** ** Checks of the codecs and of the path functions on known values *)

Example utf8_decode_validos :
  utf8_decode strict [x63; xc3; xa9; xe2; x82; xac; xf0; x9f; x98; x80]
  = Some [0x63; 0xE9; 0x20AC; 0x1F600].
Proof. reflexivity. Qed.

Example utf8_decode_rechaza :
  map (utf8_decode strict)
    [ [xc0; x80]; [xed; xa0; x80]; [xf4; x90; x80; x80]; [xe0; x80; x80];
      [x80]; [xc3]; [xff] ]
  = [None; None; None; None; None; None; None].
Proof. reflexivity. Qed.

Example utf8_decode_reemplaza :
  map (utf8_decode replace_errors)
    [ [xf0; x90; x80]; [xe0; x80]; [xf0; x90; x41]; [xc3; x41]; [xed; xa0; x80] ]
  = [ Some [0xFFFD]; Some [0xFFFD; 0xFFFD]; Some [0xFFFD; 0x41];
      Some [0xFFFD; 0x41]; Some [0xFFFD; 0xFFFD; 0xFFFD] ].
Proof. reflexivity. Qed.

Example cp1252_decode_ejemplos :
  cp1252_decode strict [x80; xe9; x41] = Some [0x20AC; 0xE9; 0x41]
  /\ cp1252_decode strict [x81] = None
  /\ latin1_decode [x81; xff] = Some [0x81; 0xFF].
Proof. repeat split; reflexivity. Qed.

Example universal_newlines_ejemplo :
  universal_newlines (lit "a" ++ [c_CR; c_LF] ++ lit "b" ++ [c_CR] ++ lit "c" ++ [c_LF; c_CR])
  = lit "a" ++ [c_LF] ++ lit "b" ++ [c_LF] ++ lit "c" ++ [c_LF; c_LF].
Proof. reflexivity. Qed.

Example b64encode_ejemplos :
  b64encode (list_byte_of_string "Man") = list_byte_of_string "TWFu"
  /\ b64encode (list_byte_of_string "Ma") = list_byte_of_string "TWE="
  /\ b64encode (list_byte_of_string "M") = list_byte_of_string "TQ=="
  /\ b64encode [] = [].
Proof. repeat split; reflexivity. Qed.

Example stem_ejemplos :
  map (fun n => stem (en_imgs n)) ["a.b.jpg"; ".bashrc"; "foo."; "archivo"; "x.JPG"]%string
  = [lit "a.b"; lit ".bashrc"; lit "foo."; lit "archivo"; lit "x"].
Proof. reflexivity. Qed.

Example glob_ejemplos :
  map archivo
    (glob (directorio [lit "a.jpg"; lit ".jpg"; lit "b.JPG"; lit "c.jpgx";
                       lit "d.Jpg"; lit "e.x.jpg"] [])
       (lit "imgs") (lit "*.jpg"))
  = [lit "a.jpg"; lit "e.x.jpg"].
Proof. reflexivity. Qed.

Example str_leb_ejemplos :
  map (fun '(a, b) => str_leb (lit a) (lit b))
    [("a", "ab"); ("ab", "a"); ("B", "a"); ("a", "B"); ("", "a"); ("a", "a");
     ("pagina_001", "pagina_002")]%string
  = [true; false; true; false; true; true; true].
Proof. reflexivity. Qed.

Example html_escape_ejemplo :
  html_escape (lit "a&b<c>" ++ [c_comilla; c_apostrofo])
  = lit "a&amp;b&lt;c&gt;&quot;&#x27;".
Proof. reflexivity. Qed.

Example utf8_encode_ejemplo :
  utf8_encode [0x63; 0xE9; 0x20AC; 0x1F600]
  = Some [x63; xc3; xa9; xe2; x82; xac; xf0; x9f; x98; x80]
  /\ utf8_encode [0xD800] = None.
Proof. split; reflexivity. Qed.

(** ** Escaping *)

Lemma replace_un_caracter (c : N) (new s : list N) :
  replace [c] new s = flat_map (fun d => if d =? c then new else [d]) s.
Proof.
  unfold replace. induction s as [|a s IH]; [reflexivity|].
  cbn [replace_desde startswith flat_map length Nat.pred].
  rewrite N.eqb_sym, andb_true_r, IH.
  destruct (a =? c); reflexivity.
Qed.

Lemma flat_map_flat_map {A B C} (f : A -> list B) (g : B -> list C) (l : list A) :
  flat_map g (flat_map f l) = flat_map (fun a => flat_map g (f a)) l.
Proof.
  induction l as [|a l IH]; [reflexivity|].
  cbn [flat_map]. rewrite flat_map_app, IH. reflexivity.
Qed.

(** Source literals are replaced by their code points. *)
Ltac evaluar_lit :=
  repeat match goal with
         | |- context [lit ?s] =>
             let v := eval vm_compute in (lit s) in change (lit s) with v
         end.

Lemma html_escape_por_caracter (s : list N) :
  html_escape s = flat_map escape_car_html s.
Proof.
  unfold html_escape. rewrite !replace_un_caracter, !flat_map_flat_map.
  apply flat_map_ext. intros c. unfold escape_car_html.
  unfold c_amp, c_menor, c_mayor, c_comilla, c_apostrofo.
  destruct (N.eqb_spec c 38) as [->|H1]; [reflexivity|].
  destruct (N.eqb_spec c 60) as [->|H2]; [reflexivity|].
  destruct (N.eqb_spec c 62) as [->|H3]; [reflexivity|].
  destruct (N.eqb_spec c 34) as [->|H4]; [reflexivity|].
  destruct (N.eqb_spec c 39) as [->|H5]; [reflexivity|].
  apply N.eqb_neq in H1, H2, H3, H4, H5.
  repeat (cbn [flat_map app];
          first [rewrite H1 | rewrite H2 | rewrite H3 | rewrite H4 | rewrite H5]).
  reflexivity.
Qed.

Lemma escapar_js_por_caracter (s : list N) :
  escapar_js s = flat_map escape_car_js s.
Proof.
  unfold escapar_js. rewrite !replace_un_caracter, !flat_map_flat_map.
  apply flat_map_ext. intros c. unfold escape_car_js, es_especial_js.
  unfold c_barra_inv, c_acento_grave, c_dolar.
  destruct (N.eqb_spec c 92) as [->|H1]; [reflexivity|].
  destruct (N.eqb_spec c 96) as [->|H2]; [reflexivity|].
  destruct (N.eqb_spec c 36) as [->|H3]; [reflexivity|].
  apply N.eqb_neq in H1, H2, H3.
  repeat (cbn [flat_map app orb]; first [rewrite H1 | rewrite H2 | rewrite H3]).
  reflexivity.
Qed.

Lemma valor_plantilla_escape (m : list N) :
  valor_plantilla (flat_map escape_car_js m) = Some m.
Proof.
  induction m as [|c m IH]; [reflexivity|].
  cbn [flat_map]. unfold escape_car_js at 1.
  destruct (es_especial_js c) eqn:E.
  - cbn [app valor_plantilla]. unfold c_barra_inv at 1.
    rewrite N.eqb_refl, E, IH. reflexivity.
  - cbn [app valor_plantilla]. unfold es_especial_js in E.
    apply orb_false_elim in E as [E E3]. apply orb_false_elim in E as [E1 E2].
    rewrite E1, E2, E3, IH. reflexivity.
Qed.

Lemma html_unescape_escape (t : list N) :
  html_unescape (flat_map escape_car_html t) = t.
Proof.
  unfold html_unescape. induction t as [|c t IH]; [reflexivity|].
  cbn [flat_map]. unfold escape_car_html at 1.
  unfold c_amp, c_menor, c_mayor, c_comilla, c_apostrofo.
  destruct (N.eqb_spec c 38) as [->|H1]; [cbn; f_equal; exact IH|].
  destruct (N.eqb_spec c 60) as [->|H2]; [cbn; f_equal; exact IH|].
  destruct (N.eqb_spec c 62) as [->|H3]; [cbn; f_equal; exact IH|].
  destruct (N.eqb_spec c 34) as [->|H4]; [cbn; f_equal; exact IH|].
  destruct (N.eqb_spec c 39) as [->|H5]; [cbn; f_equal; exact IH|].
  cbn [app html_unescape_desde].
  replace (entidad_en entidades (c :: flat_map escape_car_html t)) with (@None (nat * N)).
  - f_equal. exact IH.
  - assert (E : (38 =? c) = false) by (apply N.eqb_neq; congruence).
    unfold entidades. evaluar_lit. cbn -[N.eqb]. rewrite E. reflexivity.
Qed.

(** C2.  Reading the text field of a page back, first as a template literal
    and then as markup, gives the decoded text again, for every text. *)
Theorem texto_js_ida_y_vuelta (texto : list N) :
  html_unescape <$> valor_plantilla (texto_js texto) = Some texto.
Proof.
  unfold texto_js. rewrite escapar_js_por_caracter, valor_plantilla_escape.
  cbn. rewrite html_escape_por_caracter, html_unescape_escape. reflexivity.
Qed.

(** C3.  The second pass puts one backslash before every backslash, backtick
    and dollar sign of the markup-escaped text and changes nothing else, so
    the result is the body of a single template literal, with no unescaped
    backtick and no substitution, whose value is the markup-escaped text;
    the text [`${evil}`] becomes [\`\${evil}\`]. *)
Theorem texto_js_inerte (texto : list N) :
  texto_js texto = flat_map escape_car_js (html_escape texto)
  /\ valor_plantilla (texto_js texto) = Some (html_escape texto)
  /\ texto_js (lit "`${evil}`") = lit "\`\${evil}\`".
Proof.
  unfold texto_js. rewrite escapar_js_por_caracter. split; [reflexivity|].
  split; [apply valor_plantilla_escape | reflexivity].
Qed.

Lemma filter_especial_escape_car (c : N) :
  List.filter es_especial_js (escape_car_html c) = List.filter es_especial_js [c].
Proof.
  unfold escape_car_html, c_amp, c_menor, c_mayor, c_comilla, c_apostrofo.
  repeat match goal with
         | |- context [c =? ?k] => destruct (N.eqb_spec c k) as [->|_]; [reflexivity|]
         end.
  reflexivity.
Qed.

Lemma escape_car_html_especial (c : N) :
  es_especial_js c = true -> escape_car_html c = [c].
Proof.
  unfold es_especial_js, c_barra_inv, c_acento_grave, c_dolar. intros H.
  apply orb_true_iff in H as [H|H]; [apply orb_true_iff in H as [H|H]|];
    apply N.eqb_eq in H; subst c; reflexivity.
Qed.

(** C8.  The name field of a page holds [html.escape(nombre)] between the
    backticks and nothing more: a backslash, backtick or dollar sign of the
    name is copied as it is, and no backslash is added.  A name with a
    backtick therefore ends the template literal early. *)
Theorem nombre_solo_escape_html (n b64 tjs : list N) :
  pagina_js n b64 tjs =
    (lit "  {" ++ [c_LF] ++ lit "    nombre: `") ++ html_escape n
      ++ (lit "`," ++ [c_LF] ++ lit "    imagen: " ++ [c_comilla]
            ++ lit "data:image/jpeg;base64," ++ b64 ++ [c_comilla] ++ lit ","
            ++ [c_LF] ++ lit "    texto: `" ++ tjs ++ lit "`" ++ [c_LF] ++ lit "  }")
  /\ html_escape n = flat_map escape_car_html n
  /\ (forall c, es_especial_js c = true -> escape_car_html c = [c])
  /\ List.filter es_especial_js (html_escape n) = List.filter es_especial_js n
  /\ html_escape (lit "a\b`c$d") = lit "a\b`c$d"
  /\ valor_plantilla (html_escape (lit "a\b`c$d")) = None.
Proof.
  split; [unfold pagina_js; rewrite <- !app_assoc; reflexivity|].
  split; [apply html_escape_por_caracter|].
  split; [apply escape_car_html_especial|].
  split; [|split; reflexivity].
  rewrite html_escape_por_caracter.
  induction n as [|c n IH]; [reflexivity|].
  cbn [flat_map]. rewrite List.filter_app, IH, filter_especial_escape_car.
  change (c :: n) with ([c] ++ n). rewrite List.filter_app. reflexivity.
Qed.

(** ** Base 64 *)

(** Division and remainder goals on [N]. *)
Ltac aritmetica :=
  repeat match goal with
         | |- context [Byte.to_N ?b] => generalize dependent (Byte.to_N b); intros
         | H : context [Byte.to_N ?b] |- _ =>
             generalize dependent (Byte.to_N b); intros
         end;
  zify; Z.to_euclidean_division_equations; lia.

Lemma to_N_menor (b : byte) : Byte.to_N b < 256.
Proof. pose proof (Byte.to_N_bounded b). lia. Qed.

Lemma byte_de_N_to_N (b : byte) : byte_de_N (Byte.to_N b) = b.
Proof. unfold byte_de_N. rewrite Byte.of_to_N. reflexivity. Qed.

Lemma byte_de_N_igual (n : N) (b : byte) : n = Byte.to_N b -> byte_de_N n = b.
Proof. intros ->. apply byte_de_N_to_N. Qed.

Lemma sexteto_bien_todos (n : N) : n < 64 -> sexteto_bien n = true.
Proof.
  intros H.
  assert (T : forallb sexteto_bien (map N.of_nat (seq 0 64)) = true)
    by (vm_compute; reflexivity).
  rewrite forallb_forall in T. apply T.
  apply in_map_iff. exists (N.to_nat n). split; [apply N2Nat.id|].
  apply in_seq. lia.
Qed.

Lemma sexteto_valor (n : N) :
  n < 64 ->
  valor_b64 (Byte.to_N (sexteto n)) = Some n
  /\ (Byte.to_N (sexteto n) =? c_igual) = false
  /\ Byte.to_N (sexteto n) < 128.
Proof.
  intros H. apply sexteto_bien_todos in H. unfold sexteto_bien in H.
  destruct (valor_b64 _) as [v|]; [|discriminate].
  apply andb_true_iff in H as [H H3]. apply andb_true_iff in H as [H1 H2].
  apply N.eqb_eq in H1. apply negb_true_iff in H2. apply N.ltb_lt in H3.
  subst v. auto.
Qed.

Lemma induccion_de_tres {A} (P : list A -> Prop) :
  P [] -> (forall x, P [x]) -> (forall x y, P [x; y]) ->
  (forall x y z r, P r -> P (x :: y :: z :: r)) ->
  forall l, P l.
Proof.
  intros H0 H1 H2 H3 l.
  assert (G : P l /\ (forall x, P (x :: l)) /\ (forall x y, P (x :: y :: l))).
  { induction l as [|a l (IH0 & IH1 & IH2)]; [auto|].
    split; [apply IH1|]. split; [intros x; apply IH2|].
    intros x y. apply H3, IH0. }
  apply G.
Qed.

Lemma b64encode_ascii (datos : list byte) :
  Forall (fun b => Byte.to_N b < 128) (b64encode datos).
Proof.
  induction datos as [|x|x y|x y z r IH] using induccion_de_tres.
  - constructor.
  - pose proof (to_N_menor x). cbn [b64encode].
    repeat constructor; try apply sexteto_valor; try aritmetica.
  - pose proof (to_N_menor x). pose proof (to_N_menor y). cbn [b64encode].
    repeat constructor; try apply sexteto_valor; try aritmetica.
  - pose proof (to_N_menor x). pose proof (to_N_menor y).
    pose proof (to_N_menor z). cbn [b64encode].
    repeat (constructor; [apply sexteto_valor; aritmetica|]). exact IH.
Qed.

Lemma utf8_decode_ascii (bs : list byte) :
  Forall (fun b => Byte.to_N b < 128) bs ->
  utf8_decode strict bs = Some (map Byte.to_N bs).
Proof.
  induction 1 as [|b bs Hb _ IH]; [reflexivity|].
  cbn [utf8_decode map]. apply N.ltb_lt in Hb. rewrite Hb, IH. reflexivity.
Qed.

Lemma b64decode_b64encode (datos : list byte) :
  b64decode (map Byte.to_N (b64encode datos)) = Some datos.
Proof.
  induction datos as [|x|x y|x y z r IH] using induccion_de_tres.
  - reflexivity.
  - pose proof (to_N_menor x) as Hx. cbn [b64encode map b64decode].
    destruct (sexteto_valor (Byte.to_N x / 4)) as (-> & _ & _); [aritmetica|].
    destruct (sexteto_valor (Byte.to_N x mod 4 * 16)) as (-> & _ & _); [aritmetica|].
    cbn. do 2 f_equal. apply byte_de_N_igual. aritmetica.
  - pose proof (to_N_menor x) as Hx. pose proof (to_N_menor y) as Hy.
    cbn [b64encode map b64decode].
    destruct (sexteto_valor (Byte.to_N x / 4)) as (-> & _ & _); [aritmetica|].
    destruct (sexteto_valor (Byte.to_N x mod 4 * 16 + Byte.to_N y / 16))
      as (-> & _ & _); [aritmetica|].
    destruct (sexteto_valor (Byte.to_N y mod 16 * 4)) as (-> & -> & _); [aritmetica|].
    cbn. f_equal.
    f_equal; [|f_equal]; apply byte_de_N_igual; aritmetica.
  - pose proof (to_N_menor x) as Hx. pose proof (to_N_menor y) as Hy.
    pose proof (to_N_menor z) as Hz.
    cbn [b64encode map b64decode].
    destruct (sexteto_valor (Byte.to_N x / 4)) as (-> & _ & _); [aritmetica|].
    destruct (sexteto_valor (Byte.to_N x mod 4 * 16 + Byte.to_N y / 16))
      as (-> & _ & _); [aritmetica|].
    destruct (sexteto_valor (Byte.to_N y mod 16 * 4 + Byte.to_N z / 64))
      as (-> & -> & _); [aritmetica|].
    destruct (sexteto_valor (Byte.to_N z mod 64)) as (-> & -> & _); [aritmetica|].
    rewrite IH. cbn. f_equal.
    f_equal; [|f_equal; [|f_equal]]; apply byte_de_N_igual; aritmetica.
Qed.

Lemma imagen_a_base64_contenido fs r datos :
  contenido fs r = Some datos ->
  imagen_a_base64 fs r = devolver (map Byte.to_N (b64encode datos)).
Proof.
  intros H. unfold imagen_a_base64, leer_bytes. rewrite H. cbn [ligar devolver].
  rewrite utf8_decode_ascii by apply b64encode_ascii. reflexivity.
Qed.

(** C4.  For a file of any bytes, [imagen_a_base64] returns a string whose
    base-64 decoding is exactly those bytes. *)
Theorem imagen_a_base64_sin_perdida (fs : sistema) (r : ruta) (datos : list byte) :
  contenido fs r = Some datos ->
  exists s, imagen_a_base64 fs r = devolver s
            /\ s = map Byte.to_N (b64encode datos)
            /\ b64decode s = Some datos.
Proof.
  intros H. exists (map Byte.to_N (b64encode datos)).
  split; [apply imagen_a_base64_contenido, H|].
  split; [reflexivity | apply b64decode_b64encode].
Qed.

Lemma imagen_a_base64_sin_perdida_testigo :
  exists s, imagen_a_base64 (un_archivo (en_imgs "p.jpg") [xff; xd8; x00; x0a])
              (en_imgs "p.jpg") = devolver s
            /\ s = map Byte.to_N (b64encode [xff; xd8; x00; x0a])
            /\ b64decode s = Some [xff; xd8; x00; x0a].
Proof.
  apply (imagen_a_base64_sin_perdida
           (un_archivo (en_imgs "p.jpg") [xff; xd8; x00; x0a]) (en_imgs "p.jpg")).
  reflexivity.
Defined.

(** ** Text decoder *)

Lemma utf8_replace_total_hasta (n : nat) (bs : list byte) :
  (length bs <= n)%nat -> is_Some (utf8_decode replace_errors bs).
Proof.
  revert bs. induction n as [|n IH]; intros bs Hn.
  - destruct bs; [eexists; reflexivity | cbn in Hn; lia].
  - destruct bs as [|b0 r0]; [eexists; reflexivity|].
    cbn [utf8_decode mal_formado].
    repeat case_match; subst; cbn [length] in *;
      try (eexists; reflexivity);
      apply fmap_is_Some; try (eexists; reflexivity); apply IH; cbn [length]; lia.
Qed.

Lemma utf8_replace_total (bs : list byte) : is_Some (utf8_decode replace_errors bs).
Proof. apply (utf8_replace_total_hasta (length bs)). lia. Qed.

Lemma abrir_leer_contenido fs r enc e datos :
  contenido fs r = Some datos ->
  abrir_leer fs r enc e =
    match decode enc e datos with
    | None => lanzar UnicodeDecodeError
    | Some s => devolver (universal_newlines s)
    end.
Proof. intros H. unfold abrir_leer, leer_bytes. rewrite H. reflexivity. Qed.

Lemma abrir_leer_ausente fs r enc e :
  contenido fs r = None -> abrir_leer fs r enc e = lanzar (OSError r).
Proof. intros H. unfold abrir_leer, leer_bytes. rewrite H. reflexivity. Qed.

(** latin-1 decodes any bytes, so a readable file is always read. *)
Lemma leer_texto_legible fs r datos :
  contenido fs r = Some datos -> exists s, leer_texto fs r = devolver s.
Proof.
  intros H. unfold leer_texto. cbn [leer_con].
  rewrite !(abrir_leer_contenido _ _ _ _ _ H). cbn [decode latin1_decode].
  destruct (utf8_decode strict datos); eexists; reflexivity.
Qed.

(** C5 (counterexample).  The decoded text is not returned unchanged: the
    bytes of "a\r\nb" decode under utf-8, the first encoding, to the four
    characters a, CR, LF, b, and [leer_texto] returns the three characters
    a, LF, b. *)
Lemma leer_texto_no_devuelve_sin_cambios :
  ~ devuelve_sin_cambios (un_archivo (en_txts "p.txt") [x61; x0d; x0a; x62])
      (en_txts "p.txt") [x61; x0d; x0a; x62].
Proof.
  intros H. specialize (H [97; 13; 10; 98] eq_refl). vm_compute in H. discriminate H.
Qed.

Lemma leer_con_primera_lectura fs r datos encs :
  contenido fs r = Some datos ->
  exists s, leer_con fs r encs (abrir_leer fs r utf_8 replace_errors) = devolver s
            /\ es_primera_lectura encs datos s.
Proof.
  intros H. induction encs as [|enc encs IH]; cbn [leer_con es_primera_lectura].
  - rewrite (abrir_leer_contenido _ _ _ _ _ H). cbn [decode].
    destruct (utf8_replace_total datos) as [t Ht]. rewrite Ht.
    eexists. split; reflexivity.
  - rewrite (abrir_leer_contenido _ _ _ _ _ H).
    destruct (decode enc strict datos) as [t|]; [eexists; split; reflexivity|].
    exact IH.
Qed.

(** C5.  On a readable file the decoder always returns a string: the
    reading of the first encoding of the list that decodes, which is the
    decoded text with every line end read as "\n", and, when none
    decodes, the utf-8 reading with undecodable sequences replaced.  This
    holds of the loop for any list of encodings, and so for the list utf-8,
    latin-1, cp1252 of [leer_texto]. *)
Theorem leer_texto_nunca_falla (fs : sistema) (r : ruta) (datos : list byte) :
  contenido fs r = Some datos ->
  (forall encs,
      exists s, leer_con fs r encs (abrir_leer fs r utf_8 replace_errors) = devolver s
                /\ es_primera_lectura encs datos s)
  /\ (exists s, leer_texto fs r = devolver s
                /\ es_primera_lectura [utf_8; latin_1; cp1252] datos s).
Proof.
  intros H. split.
  - intros encs. apply leer_con_primera_lectura, H.
  - apply (leer_con_primera_lectura fs r datos [utf_8; latin_1; cp1252] H).
Qed.

Lemma leer_texto_nunca_falla_testigo :
  (exists s, leer_con (un_archivo (en_txts "p.txt") [x81; x0d]) (en_txts "p.txt")
               [utf_8; cp1252]
               (abrir_leer (un_archivo (en_txts "p.txt") [x81; x0d]) (en_txts "p.txt")
                  utf_8 replace_errors) = devolver s
             /\ Some s = Some [0xFFFD; 10])
  /\ (exists s, leer_texto (un_archivo (en_txts "p.txt") [x81; x0d]) (en_txts "p.txt")
                = devolver s
                /\ s = [0x81; 10]).
Proof.
  destruct (leer_texto_nunca_falla (un_archivo (en_txts "p.txt") [x81; x0d])
              (en_txts "p.txt") [x81; x0d] eq_refl) as [H1 H2].
  split; [exact (H1 [utf_8; cp1252]) | exact H2].
Defined.

(** C10 (counterexample).  The result is not the decoding itself: the bytes
    E9 0D are not valid utf-8, their latin-1 decoding is the two characters
    U+00E9, CR, and [leer_texto] returns U+00E9, LF. *)
Lemma leer_texto_no_es_la_decodificacion :
  ~ devuelve_decodificacion (un_archivo (en_txts "p.txt") [xe9; x0d])
      (en_txts "p.txt") [xe9; x0d].
Proof.
  unfold devuelve_decodificacion. vm_compute. intros H. discriminate H.
Qed.

(** C10.  On a readable file, whatever follows latin-1 in the list of
    encodings, and whatever the last resort is, is never used: the result
    is the utf-8 decoding when the bytes are valid utf-8 and the latin-1
    decoding otherwise, in both cases with every line end read as "\n". *)
Theorem leer_texto_utf8_o_latin1 (fs : sistema) (r : ruta) (datos : list byte) :
  contenido fs r = Some datos ->
  let leido :=
    match utf8_decode strict datos with
    | Some t => universal_newlines t
    | None => universal_newlines (map Byte.to_N datos)
    end in
  (forall resto ultimo,
      leer_con fs r (utf_8 :: latin_1 :: resto) ultimo = devolver leido)
  /\ leer_texto fs r = devolver leido.
Proof.
  intros H leido.
  assert (G : forall resto ultimo,
             leer_con fs r (utf_8 :: latin_1 :: resto) ultimo = devolver leido).
  { intros resto ultimo. cbn [leer_con].
    rewrite !(abrir_leer_contenido _ _ _ _ _ H). cbn [decode latin1_decode].
    subst leido. destruct (utf8_decode strict datos); reflexivity. }
  split; [exact G | apply G].
Qed.

Lemma leer_texto_utf8_o_latin1_testigo :
  leer_texto (un_archivo (en_txts "p.txt") [x63; xe9]) (en_txts "p.txt")
  = devolver [99; 233].
Proof.
  apply (leer_texto_utf8_o_latin1 (un_archivo (en_txts "p.txt") [x63; xe9])
           (en_txts "p.txt") [x63; xe9] eq_refl).
Defined.

(** ** Artifact assembler *)

Lemma imagen_a_base64_ausente fs r :
  contenido fs r = None -> imagen_a_base64 fs r = lanzar (OSError r).
Proof. intros H. unfold imagen_a_base64, leer_bytes. rewrite H. reflexivity. Qed.

Lemma leer_texto_ausente fs r :
  contenido fs r = None -> leer_texto fs r = lanzar (OSError r).
Proof.
  intros H. unfold leer_texto. cbn [leer_con].
  rewrite abrir_leer_ausente by exact H. reflexivity.
Qed.

(** A page whose two files are readable is prepared without error. *)
Lemma preparar_pagina_legible fs p :
  is_Some (contenido fs (ruta_img p)) -> is_Some (contenido fs (ruta_txt p)) ->
  exists pagina, preparar_pagina fs p = devolver pagina.
Proof.
  intros [di Hi] [dt Ht]. unfold preparar_pagina.
  rewrite (imagen_a_base64_contenido fs _ _ Hi).
  destruct (leer_texto_legible fs _ _ Ht) as (texto & ->).
  eexists. reflexivity.
Qed.

Lemma preparar_paginas_falla fs pares :
  (exists p, p ∈ pares /\
     (contenido fs (ruta_img p) = None \/ contenido fs (ruta_txt p) = None)) ->
  exists p r, p ∈ pares /\ (r = ruta_img p \/ r = ruta_txt p)
              /\ contenido fs r = None
              /\ para_cada (preparar_pagina fs) pares = lanzar (OSError r).
Proof.
  induction pares as [|p0 pares IH]; intros (p & Hp & Hfalta).
  - apply elem_of_nil in Hp. contradiction.
  - destruct (contenido fs (ruta_img p0)) as [di|] eqn:Hi.
    + destruct (contenido fs (ruta_txt p0)) as [dt|] eqn:Ht.
      * destruct (preparar_pagina_legible fs p0) as [pagina Hpag];
          [rewrite Hi; eauto | rewrite Ht; eauto |].
        destruct IH as (p' & r & Hp' & Hr & Hnone & Hfail).
        { exists p. split; [|exact Hfalta].
          apply elem_of_cons in Hp as [->|Hp]; [|exact Hp].
          destruct Hfalta; congruence. }
        exists p', r. repeat split; try assumption; [apply elem_of_cons; auto|].
        cbn [para_cada]. rewrite Hpag, Hfail. reflexivity.
      * exists p0, (ruta_txt p0). repeat split; auto; [apply elem_of_cons; auto|].
        cbn [para_cada]. unfold preparar_pagina.
        rewrite (imagen_a_base64_contenido fs _ _ Hi).
        cbn [ligar devolver]. rewrite leer_texto_ausente by exact Ht. reflexivity.
    + exists p0, (ruta_img p0). repeat split; auto; [apply elem_of_cons; auto|].
      cbn [para_cada]. unfold preparar_pagina.
      rewrite imagen_a_base64_ausente by exact Hi. reflexivity.
Qed.

(** When every page is prepared and the output can be written, the document
    is the template around the pages, and only the output file changes. *)
Lemma generar_html_escribe
    (plantilla_inicio plantilla_fin : list N) (fs : sistema) (pares : list par)
    (ruta_salida : ruta) (paginas_js : list (list N)) (datos : list byte) :
  para_cada (preparar_pagina fs) pares = devolver paginas_js ->
  escribible fs ruta_salida = true ->
  utf8_encode (plantilla_inicio ++ join (lit "," ++ [c_LF]) paginas_js ++ plantilla_fin)
  = Some datos ->
  exists fs',
    generar_html plantilla_inicio plantilla_fin fs pares ruta_salida = (fs', devolver tt)
    /\ contenido fs' ruta_salida = Some datos
    /\ forall r, r <> ruta_salida -> contenido fs' r = contenido fs r.
Proof.
  intros Hp Hw He. unfold generar_html. rewrite Hp. cbv zeta.
  unfold escribir. rewrite Hw. cbv zeta. unfold devolver at 1. cbv iota beta.
  rewrite He.
  eexists. split; [reflexivity|]. cbn [contenido]. split.
  - rewrite decide_True by reflexivity. reflexivity.
  - intros r Hr. rewrite decide_False by exact Hr. reflexivity.
Qed.

(** C9.  When the image or the text of some pair cannot be read,
    [generar_html] raises the [OSError] of an unreadable file of the list
    and leaves the file system as it was: the output file is not opened. *)
Theorem generar_html_sin_salida_parcial
    (plantilla_inicio plantilla_fin : list N) (fs : sistema) (pares : list par)
    (ruta_salida : ruta) :
  (exists p, p ∈ pares /\
     (contenido fs (ruta_img p) = None \/ contenido fs (ruta_txt p) = None)) ->
  exists p r, p ∈ pares /\ (r = ruta_img p \/ r = ruta_txt p)
              /\ contenido fs r = None
              /\ generar_html plantilla_inicio plantilla_fin fs pares ruta_salida
                 = (fs, lanzar (OSError r)).
Proof.
  intros H. destruct (preparar_paginas_falla fs pares H) as (p & r & Hp & Hr & Hn & Hf).
  exists p, r. repeat split; try assumption.
  unfold generar_html. rewrite Hf. reflexivity.
Qed.

Lemma generar_html_sin_salida_parcial_testigo :
  exists p r,
    p ∈ [par_ejemplo "a"; par_ejemplo "b"]
    /\ (r = ruta_img p \/ r = ruta_txt p)
    /\ contenido (un_archivo (en_imgs "a.jpg") [xff]) r = None
    /\ generar_html (lit "<script>") (lit "</script>")
         (un_archivo (en_imgs "a.jpg") [xff])
         [par_ejemplo "a"; par_ejemplo "b"] (en_txts "visor.html")
       = (un_archivo (en_imgs "a.jpg") [xff], lanzar (OSError r)).
Proof.
  apply generar_html_sin_salida_parcial.
  exists (par_ejemplo "b"). split; [|left; reflexivity].
  apply elem_of_cons. right. apply elem_of_cons. left. reflexivity.
Defined.

(** ** File pairer *)

(** *** The order on names *)

Lemma str_leb_total (a b : list N) : str_leb a b = true \/ str_leb b a = true.
Proof.
  revert b. induction a as [|x a IH]; intros [|y b]; cbn; auto.
  destruct (N.ltb_spec x y), (N.ltb_spec y x), (N.eqb_spec x y), (N.eqb_spec y x);
    auto; lia.
Qed.

Lemma str_leb_trans (a b c : list N) :
  str_leb a b = true -> str_leb b c = true -> str_leb a c = true.
Proof.
  revert b c. induction a as [|x a IH]; intros [|y b] [|z c]; cbn; auto; try discriminate.
  destruct (N.ltb_spec x y), (N.ltb_spec y z), (N.ltb_spec x z),
    (N.eqb_spec x y), (N.eqb_spec y z), (N.eqb_spec x z);
    auto; try discriminate; try lia.
  apply IH.
Qed.

Lemma str_leb_antisym (a b : list N) :
  str_leb a b = true -> str_leb b a = true -> a = b.
Proof.
  revert b. induction a as [|x a IH]; intros [|y b]; cbn; auto; try discriminate.
  destruct (N.ltb_spec x y), (N.ltb_spec y x), (N.eqb_spec x y), (N.eqb_spec y x);
    try discriminate; try lia.
  intros H1 H2. subst y. f_equal. auto.
Qed.

#[global] Instance str_le_total : Total str_le.
Proof. intros a b. apply str_leb_total. Qed.

#[global] Instance str_le_trans : Transitive str_le.
Proof. intros a b c. apply str_leb_trans. Qed.

Lemma ordenada_sin_repetidos (l : list (list N)) :
  StronglySorted str_le l -> NoDup l -> StronglySorted str_lt l.
Proof.
  induction 1 as [|a l Hs IH Ha]; intros Hnd; [constructor|].
  apply NoDup_cons in Hnd as [Hna Hnd]. constructor; [auto|].
  apply Forall_forall. intros b Hb. split.
  - rewrite Forall_forall in Ha. apply Ha, Hb.
  - intros ->. apply Hna, Hb.
Qed.

(** *** The collecting loops *)

Section Recoger.

Variable lower : list N -> list N.

Lemma recoger_desde fs dir exts d :
  foldl (fun d ext => anotar lower d (glob fs dir ext)) d exts
  = anotar lower d (enumerar fs dir exts).
Proof.
  revert d. induction exts as [|ext exts IH]; intros d; [reflexivity|].
  cbn [foldl]. rewrite IH. unfold enumerar, anotar. cbn [map concat].
  rewrite foldl_app. reflexivity.
Qed.

Lemma recoger_enumerar fs dir exts :
  recoger lower fs dir exts = anotar lower ∅ (enumerar fs dir exts).
Proof. apply recoger_desde. Qed.

Lemma anotar_app d l1 l2 : anotar lower d (l1 ++ l2) = anotar lower (anotar lower d l1) l2.
Proof. apply foldl_app. Qed.

Lemma anotar_otras d l k :
  (forall r, r ∈ l -> lower (stem r) <> k) -> anotar lower d l !! k = d !! k.
Proof.
  revert d. induction l as [|r l IH]; intros d H; [reflexivity|].
  cbn [anotar foldl]. fold (anotar lower (<[lower (stem r) := r]> d) l).
  rewrite IH by (intros r' Hr'; apply H; apply elem_of_cons; auto).
  apply lookup_insert_ne. apply H. apply elem_of_cons. auto.
Qed.

(** The last path of a key is the one the dictionary holds. *)
Lemma anotar_ultima d antes r despues :
  (forall r', r' ∈ despues -> lower (stem r') <> lower (stem r)) ->
  anotar lower d (antes ++ r :: despues) !! lower (stem r) = Some r.
Proof.
  intros H. rewrite anotar_app. cbn [anotar foldl].
  fold (anotar lower (<[lower (stem r) := r]> (anotar lower d antes)) despues).
  rewrite anotar_otras by exact H. apply lookup_insert_eq.
Qed.

Lemma anotar_lookup d l k r :
  anotar lower d l !! k = Some r ->
  (r ∈ l /\ lower (stem r) = k) \/ d !! k = Some r.
Proof.
  revert d. induction l as [|r0 l IH]; intros d H; [right; exact H|].
  cbn [anotar foldl] in H. apply IH in H as [[H1 H2]|H].
  - left. split; [apply elem_of_cons; auto | exact H2].
  - destruct (decide (lower (stem r0) = k)) as [E|E].
    + subst k. rewrite lookup_insert_eq in H. injection H as ->.
      left. split; [apply elem_of_cons; auto | reflexivity].
    + rewrite lookup_insert_ne in H by exact E. right. exact H.
Qed.

Lemma anotar_dom d l :
  dom (anotar lower d l) = dom d ∪ list_to_set (map (fun r => lower (stem r)) l).
Proof.
  revert d. induction l as [|r l IH]; intros d.
  - cbn. set_solver.
  - cbn [anotar foldl map]. fold (anotar lower (<[lower (stem r) := r]> d) l).
    rewrite IH, dom_insert_L. set_solver.
Qed.

Lemma recoger_dom fs dir exts :
  dom (recoger lower fs dir exts) = claves lower fs dir exts.
Proof.
  rewrite recoger_enumerar, anotar_dom, dom_empty_L. unfold claves. set_solver.
Qed.

Lemma recoger_lookup fs dir exts k r :
  recoger lower fs dir exts !! k = Some r ->
  r ∈ enumerar fs dir exts /\ lower (stem r) = k.
Proof.
  rewrite recoger_enumerar. intros H. apply anotar_lookup in H as [H|H]; [exact H|].
  rewrite lookup_empty in H. discriminate.
Qed.

End Recoger.

(** *** What the patterns discover *)

Lemma fnmatch_literal (patron n : list N) :
  ~ In c_asterisco patron -> (fnmatch patron n = true <-> n = patron).
Proof.
  revert n. induction patron as [|p patron IH]; intros n Hp.
  - destruct n; cbn; split; congruence.
  - cbn [fnmatch].
    assert (E : (p =? c_asterisco) = false)
      by (apply N.eqb_neq; intros ->; apply Hp; left; reflexivity).
    rewrite E. destruct n as [|c n]; [split; discriminate|].
    rewrite andb_true_iff, N.eqb_eq, IH by (intros H; apply Hp; right; exact H).
    split; [intros [-> ->]; reflexivity | intros [= -> ->]; auto].
Qed.

Lemma fnmatch_asterisco_cons (suf : list N) (c : N) (n : list N) :
  fnmatch (c_asterisco :: suf) (c :: n)
  = fnmatch suf (c :: n) || fnmatch (c_asterisco :: suf) n.
Proof. reflexivity. Qed.

(** [*] followed by literal text matches the names that end with it. *)
Lemma fnmatch_asterisco (suf n : list N) :
  ~ In c_asterisco suf ->
  (fnmatch (c_asterisco :: suf) n = true <-> exists pre, n = pre ++ suf).
Proof.
  intros Hs. induction n as [|c n IH].
  - change (fnmatch (c_asterisco :: suf) []) with (fnmatch suf [] || false).
    rewrite orb_false_r, fnmatch_literal by exact Hs. split.
    + intros <-. exists []. reflexivity.
    + intros [pre H]. symmetry in H. apply app_eq_nil in H as [_ H]. congruence.
  - rewrite fnmatch_asterisco_cons, orb_true_iff, fnmatch_literal, IH by exact Hs.
    split.
    + intros [<- | [pre ->]]; [exists []; reflexivity | exists (c :: pre); reflexivity].
    + intros [[|c' pre] H]; [left; exact H|].
      injection H as <- ->. right. exists pre. reflexivity.
Qed.

(** The paths of [glob] for a pattern [*suf]: the entries of the
    directories it looks into that do not start with a dot and end with
    [suf], case-sensitively. *)
Lemma glob_asterisco (fs : sistema) (dir suf : list N) (r : ruta) :
  ~ In c_asterisco suf ->
  (r ∈ glob fs dir (c_asterisco :: suf) <->
   exists d n, d ∈ carpetas_de fs dir
               /\ r = {| carpeta := d; archivo := n |}
               /\ n ∈ listdir fs d /\ ishidden n = false
               /\ exists pre, n = pre ++ suf).
Proof.
  intros Hs. unfold glob. rewrite list_elem_of_In, in_flat_map. split.
  - intros (d & Hd & Hr). apply in_map_iff in Hr as (n & <- & Hn).
    apply filter_In in Hn as [Hn Hm].
    apply andb_true_iff in Hm as [Hh Hm]. cbn in Hh. apply negb_true_iff in Hh.
    exists d, n. rewrite !list_elem_of_In. repeat split; try assumption.
    apply fnmatch_asterisco; assumption.
  - intros (d & n & Hd & -> & Hn & Hh & Hpre). exists d.
    split; [apply list_elem_of_In, Hd|]. apply in_map_iff.
    exists n. split; [reflexivity|].
    apply filter_In. split; [apply list_elem_of_In, Hn|].
    apply andb_true_iff. split; [cbn; rewrite Hh; reflexivity|].
    apply fnmatch_asterisco; assumption.
Qed.

Lemma carpetas_de_sin_patron (fs : sistema) (dir : list N) :
  has_magic dir = false -> carpetas_de fs dir = [dir].
Proof. intros H. unfold carpetas_de. rewrite H. reflexivity. Qed.

Lemma rfind_ultimo (c : N) (pre ext : list N) :
  ~ In c ext -> rfind c (pre ++ c :: ext) = Some (length pre).
Proof.
  intros Hc.
  assert (Hn : rfind c ext = None).
  { induction ext as [|x ext IH]; [reflexivity|].
    cbn [rfind]. rewrite IH by (intros H; apply Hc; right; exact H).
    assert (E : (x =? c) = false)
      by (apply N.eqb_neq; intros ->; apply Hc; left; reflexivity).
    rewrite E. reflexivity. }
  induction pre as [|x pre IH].
  - cbn [app rfind length]. rewrite Hn, N.eqb_refl. reflexivity.
  - cbn [app rfind length]. rewrite IH. reflexivity.
Qed.

(** The stem of a discovered file [pre.ext] is [pre]. *)
Lemma stem_descubierto (dir pre ext : list N) :
  ~ In c_punto ext -> pre <> [] -> ext <> [] ->
  stem {| carpeta := dir; archivo := pre ++ c_punto :: ext |} = pre.
Proof.
  intros Hd Hp He. unfold stem. cbn [archivo]. rewrite rfind_ultimo by exact Hd.
  assert (L1 : (0 < length pre)%nat) by (destruct pre; [congruence | cbn; lia]).
  assert (L2 : (0 < length ext)%nat) by (destruct ext; [congruence | cbn; lia]).
  apply Nat.ltb_lt in L1. rewrite L1.
  assert (L3 : (length pre <? length (pre ++ c_punto :: ext) - 1)%nat = true)
    by (apply Nat.ltb_lt; rewrite length_app; cbn [length]; apply Nat.ltb_lt in L1; lia).
  rewrite L3. cbn [andb]. apply take_app_length.
Qed.

(** *** The pairing *)

Lemma para_cada_devuelve {A B} (f : A -> resultado B) (xs : list A) :
  (forall x, x ∈ xs -> exists y, f x = devolver y) ->
  exists ys, para_cada f xs = devolver ys /\ Forall2 (fun x y => f x = devolver y) xs ys.
Proof.
  induction xs as [|x xs IH]; intros H.
  - exists []. split; [reflexivity | constructor].
  - destruct (H x) as [y Hy]; [apply elem_of_cons; auto|].
    destruct IH as (ys & Hys & Hall); [intros x' Hx'; apply H, elem_of_cons; auto|].
    exists (y :: ys). cbn [para_cada]. rewrite Hy, Hys.
    split; [reflexivity | constructor; assumption].
Qed.

(** The pairing never raises ([KeyError] cannot occur); the keys of its
    result are the sorted common keys of the two dictionaries. *)
Lemma emparejar_archivos_forma lower fs carpeta_img carpeta_txt :
  exists pares,
    emparejar_archivos lower fs carpeta_img carpeta_txt = devolver pares
    /\ map (clave lower) pares =
         merge_sort str_le
           (elements (claves lower fs carpeta_img exts_img
                        ∩ claves lower fs carpeta_txt exts_txt))
    /\ Forall (par_de_clave lower fs carpeta_img carpeta_txt) pares.
Proof.
  unfold emparejar_archivos. rewrite !recoger_dom.
  set (imagenes := recoger lower fs carpeta_img exts_img).
  set (textos := recoger lower fs carpeta_txt exts_txt).
  set (comunes := merge_sort str_le _).
  set (f := fun k : list N => _).
  assert (Hcom : forall k, k ∈ comunes ->
            exists img txt, imagenes !! k = Some img /\ textos !! k = Some txt).
  { intros k Hk. subst comunes. rewrite merge_sort_Permutation in Hk.
    apply elem_of_elements, elem_of_intersection in Hk as [Hi Ht].
    rewrite <- recoger_dom in Hi, Ht.
    apply elem_of_dom in Hi as [img Hi]. apply elem_of_dom in Ht as [txt Ht].
    eauto. }
  destruct (para_cada_devuelve f comunes) as (pares & Hp & Hall).
  { intros k Hk. destruct (Hcom k Hk) as (img & txt & Hi & Ht).
    subst f. cbn beta. rewrite Hi, Ht. eauto. }
  exists pares. split; [exact Hp|].
  clear Hp. induction Hall as [|k p ks ps Hk Hall IH].
  - split; [reflexivity | constructor].
  - destruct IH as [IH1 IH2];
      [intros k' Hk'; apply Hcom, elem_of_cons; auto|].
    destruct (Hcom k) as (img & txt & Hi & Ht); [apply elem_of_cons; auto|].
    subst f. cbn beta in Hk. rewrite Hi, Ht in Hk. injection Hk as <-.
    assert (Ek : lower (stem img) = k)
      by (apply (recoger_lookup lower fs carpeta_img exts_img), Hi).
    split.
    + cbn [map]. rewrite IH1. unfold clave at 1. cbn [nombre]. rewrite Ek. reflexivity.
    + constructor; [|exact IH2].
      unfold par_de_clave, clave. cbn [nombre ruta_img ruta_txt]. rewrite Ek. auto.
Qed.

(** The pairing uses [lower] on the stems of the discovered files only. *)
Lemma anotar_ext lower lower' d l :
  (forall r, r ∈ l -> lower (stem r) = lower' (stem r)) ->
  anotar lower d l = anotar lower' d l.
Proof.
  revert d. induction l as [|r l IH]; intros d H; [reflexivity|].
  cbn [anotar foldl]. rewrite (H r) by (apply elem_of_cons; auto).
  apply IH. intros r' Hr'. apply H, elem_of_cons. auto.
Qed.

Lemma emparejar_archivos_ext lower lower' fs carpeta_img carpeta_txt :
  (forall r, r ∈ enumerar fs carpeta_img exts_img -> lower (stem r) = lower' (stem r)) ->
  (forall r, r ∈ enumerar fs carpeta_txt exts_txt -> lower (stem r) = lower' (stem r)) ->
  emparejar_archivos lower fs carpeta_img carpeta_txt
  = emparejar_archivos lower' fs carpeta_img carpeta_txt.
Proof.
  intros Hi Ht. unfold emparejar_archivos.
  rewrite !recoger_enumerar, (anotar_ext _ _ _ _ Hi), (anotar_ext _ _ _ _ Ht).
  reflexivity.
Qed.

Lemma stems_ascii (l : list ruta) :
  forallb (fun r => forallb (fun c => c <? 128) (stem r)) l = true ->
  forall r, r ∈ l -> es_ascii (stem r).
Proof.
  intros H r Hr. rewrite forallb_forall in H. apply list_elem_of_In, H in Hr.
  rewrite forallb_forall in Hr. apply List.Forall_forall. intros c Hc.
  apply N.ltb_lt, Hr, Hc.
Qed.

(** C6.  Every record carries the stem of its image file as found, not the
    lower-cased key; its image and its text are discovered files with the
    same key.  With a [lower] that is [str.lower] on ASCII text, the
    directories of the scenario give exactly two records, pagina_001 and
    then PAGINA_002. *)
Theorem nombre_es_stem_de_imagen (lower : list N -> list N) :
  (forall s, es_ascii s -> lower s = ascii_lower s) ->
  (forall fs carpeta_img carpeta_txt pares,
      emparejar_archivos lower fs carpeta_img carpeta_txt = devolver pares ->
      forall p, p ∈ pares ->
        nombre p = stem (ruta_img p)
        /\ ruta_img p ∈ enumerar fs carpeta_img exts_img
        /\ ruta_txt p ∈ enumerar fs carpeta_txt exts_txt
        /\ lower (stem (ruta_img p)) = lower (stem (ruta_txt p)))
  /\ emparejar_archivos lower ejemplo_spec (lit "imgs") (lit "txts")
     = devolver
         [ {| nombre := lit "pagina_001";
              ruta_img := en_imgs "pagina_001.jpg";
              ruta_txt := en_txts "pagina_001.txt" |};
           {| nombre := lit "PAGINA_002";
              ruta_img := en_imgs "PAGINA_002.JPG";
              ruta_txt := en_txts "pagina_002.txt" |} ].
Proof.
  intros Hlower. split.
  - intros fs ci ct pares Hp p Hin.
    destruct (emparejar_archivos_forma lower fs ci ct) as (pares' & Hp' & _ & Hall).
    rewrite Hp in Hp'. injection Hp' as <-.
    rewrite Forall_forall in Hall. destruct (Hall p Hin) as (Hi & Ht & Hn).
    apply recoger_lookup in Hi as [Hi1 Hi2]. apply recoger_lookup in Ht as [Ht1 Ht2].
    repeat split; try assumption. congruence.
  - rewrite (emparejar_archivos_ext lower ascii_lower); [vm_compute; reflexivity| |].
    + intros r Hr. apply Hlower. revert r Hr. apply stems_ascii.
      vm_compute. reflexivity.
    + intros r Hr. apply Hlower. revert r Hr. apply stems_ascii.
      vm_compute. reflexivity.
Qed.

Lemma nombre_es_stem_de_imagen_testigo :
  emparejar_archivos ascii_lower ejemplo_spec (lit "imgs") (lit "txts")
  = devolver
      [ {| nombre := lit "pagina_001";
           ruta_img := en_imgs "pagina_001.jpg";
           ruta_txt := en_txts "pagina_001.txt" |};
        {| nombre := lit "PAGINA_002";
           ruta_img := en_imgs "PAGINA_002.JPG";
           ruta_txt := en_txts "pagina_002.txt" |} ].
Proof.
  apply (nombre_es_stem_de_imagen ascii_lower). intros s _. reflexivity.
Defined.

(** C7.  Of the image files that share a key, the one enumerated last is
    the one the image dictionary holds, and so the one of the record of
    that key; the pairing returns normally. *)
Theorem ultima_imagen_gana (lower : list N -> list N) (fs : sistema)
    (carpeta_img : list N) (antes : list ruta) (r : ruta) (despues : list ruta) :
  enumerar fs carpeta_img exts_img = antes ++ r :: despues ->
  (forall r', r' ∈ despues -> lower (stem r') <> lower (stem r)) ->
  recoger lower fs carpeta_img exts_img !! lower (stem r) = Some r
  /\ forall carpeta_txt,
       exists pares,
         emparejar_archivos lower fs carpeta_img carpeta_txt = devolver pares
         /\ forall p, p ∈ pares -> clave lower p = lower (stem r) -> ruta_img p = r.
Proof.
  intros He Hd.
  assert (Hr : recoger lower fs carpeta_img exts_img !! lower (stem r) = Some r)
    by (rewrite recoger_enumerar, He; apply anotar_ultima, Hd).
  split; [exact Hr|]. intros ct.
  destruct (emparejar_archivos_forma lower fs carpeta_img ct) as (pares & Hp & _ & Hall).
  exists pares. split; [exact Hp|]. intros p Hin Hk.
  rewrite Forall_forall in Hall. destruct (Hall p Hin) as (Hi & _ & _).
  rewrite Hk, Hr in Hi. congruence.
Qed.

Lemma ultima_imagen_gana_testigo :
  recoger ascii_lower ejemplo_duplicadas (lit "imgs") exts_img
    !! ascii_lower (stem (en_imgs "A.JPG")) = Some (en_imgs "A.JPG")
  /\ forall carpeta_txt,
       exists pares,
         emparejar_archivos ascii_lower ejemplo_duplicadas (lit "imgs") carpeta_txt
         = devolver pares
         /\ forall p, p ∈ pares ->
                      clave ascii_lower p = ascii_lower (stem (en_imgs "A.JPG")) ->
                      ruta_img p = en_imgs "A.JPG".
Proof.
  apply (ultima_imagen_gana ascii_lower ejemplo_duplicadas (lit "imgs")
           [en_imgs "a.jpg"; en_imgs "b.jpg"] (en_imgs "A.JPG") []).
  - vm_compute. reflexivity.
  - intros r' Hr'. apply elem_of_nil in Hr'. contradiction.
Defined.

(** * Further properties *)

(** ** File pairer: what is discovered, and in which order *)

Lemma enumerar_glob (fs : sistema) (dir : list N) (exts : list (list N)) (r : ruta) :
  r ∈ enumerar fs dir exts <-> exists ext, ext ∈ exts /\ r ∈ glob fs dir ext.
Proof.
  unfold enumerar. induction exts as [|e exts IH]; cbn [map concat].
  - split; [intros H; apply elem_of_nil in H; contradiction|].
    intros (ext & H & _). apply elem_of_nil in H. contradiction.
  - rewrite elem_of_app, IH. split.
    + intros [H | (ext & H1 & H2)].
      * exists e. split; [apply list_elem_of_here | exact H].
      * exists ext. split; [apply elem_of_cons; auto | exact H2].
    + intros (ext & H1 & H2). apply elem_of_cons in H1 as [-> | H1]; [auto|].
      right. exists ext. auto.
Qed.

Lemma enumerar_descubierto (fs : sistema) (dir : list N) (exts : list (list N))
    (r : ruta) :
  Forall (fun e => ~ In c_asterisco e /\ ~ In c_punto e /\ e <> []) exts ->
  r ∈ enumerar fs dir (map (fun e => c_asterisco :: c_punto :: e) exts) ->
  descubierto fs dir exts r.
Proof.
  intros Hexts Hr. apply enumerar_glob in Hr as (pat & Hpat & Hr).
  apply list_elem_of_In, in_map_iff in Hpat as (ext & <- & Hext).
  rewrite List.Forall_forall in Hexts. destruct (Hexts ext Hext) as (Ha & Hp & Hne).
  apply glob_asterisco in Hr as (d & n & Hd & -> & Hn & Hh & pre & ->).
  2:{ intros [Hd | Hd]; [discriminate | auto]. }
  exists pre, ext. cbn [archivo carpeta].
  assert (Hpre : pre <> []) by (intros ->; cbn in Hh; discriminate).
  repeat split; try assumption; [apply list_elem_of_In, Hext|].
  apply stem_descubierto; assumption.
Qed.

Lemma enumerar_descubierto_img fs dir r :
  r ∈ enumerar fs dir exts_img -> descubierto fs dir extensiones_img r.
Proof.
  change exts_img with (map (fun e => c_asterisco :: c_punto :: e) extensiones_img).
  apply enumerar_descubierto.
  repeat constructor; try discriminate; vm_compute; intuition discriminate.
Qed.

Lemma enumerar_descubierto_txt fs dir r :
  r ∈ enumerar fs dir exts_txt -> descubierto fs dir extensiones_txt r.
Proof.
  change exts_txt with (map (fun e => c_asterisco :: c_punto :: e) extensiones_txt).
  apply enumerar_descubierto.
  repeat constructor; try discriminate; vm_compute; intuition discriminate.
Qed.

(** X1.  Every record pairs a visible entry [nombre.ext], [ext] one of jpg,
    JPG, jpeg, JPEG, of a directory [glob] looks into for the image folder
    with a visible entry [pre.ext'], [ext'] one of txt, TXT, of a directory
    it looks into for the text folder, whose stem has the same lower-cased
    form; nothing else is ever paired.  The directory is the folder itself
    when its name holds no pattern character. *)
Theorem registro_de_archivos_descubiertos (lower : list N -> list N) (fs : sistema)
    (carpeta_img carpeta_txt : list N) (pares : list par) (p : par) :
  emparejar_archivos lower fs carpeta_img carpeta_txt = devolver pares ->
  p ∈ pares ->
  (exists ext, ext ∈ extensiones_img
     /\ carpeta (ruta_img p) ∈ carpetas_de fs carpeta_img
     /\ archivo (ruta_img p) = nombre p ++ c_punto :: ext
     /\ archivo (ruta_img p) ∈ listdir fs (carpeta (ruta_img p))
     /\ ishidden (archivo (ruta_img p)) = false)
  /\ (exists pre ext, ext ∈ extensiones_txt
        /\ carpeta (ruta_txt p) ∈ carpetas_de fs carpeta_txt
        /\ archivo (ruta_txt p) = pre ++ c_punto :: ext
        /\ archivo (ruta_txt p) ∈ listdir fs (carpeta (ruta_txt p))
        /\ ishidden (archivo (ruta_txt p)) = false
        /\ lower pre = lower (nombre p))
  /\ (has_magic carpeta_img = false -> carpeta (ruta_img p) = carpeta_img)
  /\ (has_magic carpeta_txt = false -> carpeta (ruta_txt p) = carpeta_txt).
Proof.
  intros Hp Hin.
  destruct (emparejar_archivos_forma lower fs carpeta_img carpeta_txt)
    as (pares' & Hp' & _ & Hall).
  rewrite Hp in Hp'. injection Hp' as <-.
  rewrite Forall_forall in Hall. destruct (Hall p Hin) as (Hi & Ht & Hn).
  apply recoger_lookup in Hi as [Hi1 Hi2]. apply recoger_lookup in Ht as [Ht1 Ht2].
  apply enumerar_descubierto_img in Hi1 as (pre & ext & He & Hd & Hr & Hl & Hh & Hs).
  apply enumerar_descubierto_txt in Ht1
    as (pre' & ext' & He' & Hd' & Hr' & Hl' & Hh' & Hs').
  split; [|split; [|split]].
  - exists ext. rewrite Hn, Hs. auto.
  - exists pre', ext'. repeat split; try assumption.
    rewrite <- Hs', Ht2. unfold clave. reflexivity.
  - intros Hm. rewrite (carpetas_de_sin_patron fs _ Hm) in Hd.
    apply list_elem_of_singleton in Hd. exact Hd.
  - intros Hm. rewrite (carpetas_de_sin_patron fs _ Hm) in Hd'.
    apply list_elem_of_singleton in Hd'. exact Hd'.
Qed.

Lemma registro_de_archivos_descubiertos_testigo :
  (exists ext, ext ∈ extensiones_img
     /\ lit "imgs" ∈ carpetas_de ejemplo_spec (lit "imgs")
     /\ lit "PAGINA_002.JPG" = lit "PAGINA_002" ++ c_punto :: ext
     /\ lit "PAGINA_002.JPG" ∈ listdir ejemplo_spec (lit "imgs")
     /\ ishidden (lit "PAGINA_002.JPG") = false)
  /\ (exists pre ext, ext ∈ extensiones_txt
        /\ lit "txts" ∈ carpetas_de ejemplo_spec (lit "txts")
        /\ lit "pagina_002.txt" = pre ++ c_punto :: ext
        /\ lit "pagina_002.txt" ∈ listdir ejemplo_spec (lit "txts")
        /\ ishidden (lit "pagina_002.txt") = false
        /\ ascii_lower pre = ascii_lower (lit "PAGINA_002"))
  /\ (has_magic (lit "imgs") = false -> lit "imgs" = lit "imgs")
  /\ (has_magic (lit "txts") = false -> lit "txts" = lit "txts").
Proof.
  apply (registro_de_archivos_descubiertos ascii_lower ejemplo_spec (lit "imgs")
           (lit "txts")
           [ {| nombre := lit "pagina_001";
                ruta_img := en_imgs "pagina_001.jpg";
                ruta_txt := en_txts "pagina_001.txt" |};
             {| nombre := lit "PAGINA_002";
                ruta_img := en_imgs "PAGINA_002.JPG";
                ruta_txt := en_txts "pagina_002.txt" |} ]
           {| nombre := lit "PAGINA_002";
              ruta_img := en_imgs "PAGINA_002.JPG";
              ruta_txt := en_txts "pagina_002.txt" |}).
  - vm_compute. reflexivity.
  - apply elem_of_cons. right. apply list_elem_of_here.
Defined.

Lemma filter_permutacion {A} (f : A -> bool) (l l' : list A) :
  l ≡ₚ l' -> List.filter f l ≡ₚ List.filter f l'.
Proof.
  induction 1 as [|x l l' _ IH|x y l|l1 l2 l3 _ IH1 _ IH2]; cbn [List.filter].
  - reflexivity.
  - destruct (f x); [constructor|]; exact IH.
  - destruct (f x), (f y); try reflexivity. constructor.
  - etransitivity; eassumption.
Qed.

Lemma enumerar_permutacion (fs fs' : sistema) (dir : list N) (exts : list (list N)) :
  has_magic dir = false ->
  listdir fs dir ≡ₚ listdir fs' dir -> enumerar fs dir exts ≡ₚ enumerar fs' dir exts.
Proof.
  intros Hm H. unfold enumerar. induction exts as [|e exts IH]; [reflexivity|].
  cbn [map concat]. apply Permutation_app; [|exact IH].
  unfold glob. rewrite !carpetas_de_sin_patron by exact Hm. cbn [flat_map].
  rewrite !app_nil_r. apply Permutation_map, filter_permutacion, H.
Qed.

Lemma anotar_sin_repetidas lower (l : list ruta) (r : ruta) :
  NoDup (map (fun r => lower (stem r)) l) -> r ∈ l ->
  anotar lower ∅ l !! lower (stem r) = Some r.
Proof.
  intros Hnd Hr. apply list_elem_of_split in Hr as (l1 & l2 & ->).
  apply anotar_ultima. intros r' Hr' E.
  rewrite map_app in Hnd. apply NoDup_app in Hnd as (_ & _ & Hnd).
  cbn [map] in Hnd. apply NoDup_cons in Hnd as [Hnd _]. apply Hnd.
  rewrite <- E. apply list_elem_of_In.
  apply (in_map (fun r => lower (stem r))), list_elem_of_In, Hr'.
Qed.

Lemma anotar_permutacion lower (l l' : list ruta) :
  l ≡ₚ l' -> NoDup (map (fun r => lower (stem r)) l) ->
  anotar lower ∅ l = anotar lower ∅ l'.
Proof.
  intros Hp Hnd.
  assert (Hnd' : NoDup (map (fun r => lower (stem r)) l'))
    by (rewrite <- Hp; exact Hnd).
  apply map_eq. intros k.
  destruct (anotar lower ∅ l !! k) as [r|] eqn:E.
  - apply anotar_lookup in E as [[Hr <-] | E]; [|rewrite lookup_empty in E; discriminate].
    symmetry. apply anotar_sin_repetidas; [exact Hnd' | rewrite <- Hp; exact Hr].
  - destruct (anotar lower ∅ l' !! k) as [r'|] eqn:E'; [|reflexivity].
    apply anotar_lookup in E' as [[Hr <-] | E']; [|rewrite lookup_empty in E'; discriminate].
    rewrite anotar_sin_repetidas in E; [discriminate | exact Hnd | rewrite Hp; exact Hr].
Qed.

(** X2.  For folder names without pattern characters: when no two
    discovered images and no two discovered texts share a key, the records
    do not depend on the order in which the operating system lists the two
    directories. *)
Theorem emparejar_archivos_sin_orden (lower : list N -> list N) (fs fs' : sistema)
    (carpeta_img carpeta_txt : list N) :
  has_magic carpeta_img = false ->
  has_magic carpeta_txt = false ->
  listdir fs carpeta_img ≡ₚ listdir fs' carpeta_img ->
  listdir fs carpeta_txt ≡ₚ listdir fs' carpeta_txt ->
  NoDup (map (fun r => lower (stem r)) (enumerar fs carpeta_img exts_img)) ->
  NoDup (map (fun r => lower (stem r)) (enumerar fs carpeta_txt exts_txt)) ->
  emparejar_archivos lower fs carpeta_img carpeta_txt
  = emparejar_archivos lower fs' carpeta_img carpeta_txt.
Proof.
  intros Mi Mt Hi Ht Ni Nt. unfold emparejar_archivos. rewrite !recoger_enumerar.
  rewrite (anotar_permutacion lower _ _
             (enumerar_permutacion fs fs' _ exts_img Mi Hi) Ni).
  rewrite (anotar_permutacion lower _ _
             (enumerar_permutacion fs fs' _ exts_txt Mt Ht) Nt).
  reflexivity.
Qed.

Lemma emparejar_archivos_sin_orden_testigo :
  emparejar_archivos ascii_lower
    (directorio [lit "a.jpg"; lit "B.JPG"] [lit "b.txt"; lit "a.txt"])
    (lit "imgs") (lit "txts")
  = emparejar_archivos ascii_lower
      (directorio [lit "B.JPG"; lit "a.jpg"] [lit "a.txt"; lit "b.txt"])
      (lit "imgs") (lit "txts").
Proof.
  apply emparejar_archivos_sin_orden.
  - reflexivity.
  - reflexivity.
  - apply perm_swap.
  - apply perm_swap.
  - apply (bool_decide_unpack _). vm_compute. exact I.
  - apply (bool_decide_unpack _). vm_compute. exact I.
Defined.

Lemma enumerar_vacio (fs : sistema) (dir : list N) (exts : list (list N)) :
  has_magic dir = false -> listdir fs dir = [] -> enumerar fs dir exts = [].
Proof.
  intros Hm H. unfold enumerar. induction exts as [|e exts IH]; [reflexivity|].
  cbn [map concat]. rewrite IH. unfold glob.
  rewrite carpetas_de_sin_patron by exact Hm. cbn [flat_map]. rewrite H. reflexivity.
Qed.

(** X3.  The pairing returns the empty list, and no error, exactly when the
    discovered images and the discovered texts have no key in common; an
    image directory without entries, named without pattern characters, is
    such a case. *)
Theorem emparejar_archivos_vacio (lower : list N -> list N) (fs : sistema)
    (carpeta_img carpeta_txt : list N) :
  (emparejar_archivos lower fs carpeta_img carpeta_txt = devolver []
   <-> claves lower fs carpeta_img exts_img ∩ claves lower fs carpeta_txt exts_txt = ∅)
  /\ (has_magic carpeta_img = false -> listdir fs carpeta_img = [] ->
      emparejar_archivos lower fs carpeta_img carpeta_txt = devolver []).
Proof.
  destruct (emparejar_archivos_forma lower fs carpeta_img carpeta_txt)
    as (pares & Hp & Hk & _).
  assert (G : emparejar_archivos lower fs carpeta_img carpeta_txt = devolver []
              <-> claves lower fs carpeta_img exts_img
                    ∩ claves lower fs carpeta_txt exts_txt = ∅).
  { rewrite Hp. split.
    - intros [= ->]. cbn [map] in Hk. symmetry in Hk.
      assert (P := merge_sort_Permutation str_le
                     (elements (claves lower fs carpeta_img exts_img
                                  ∩ claves lower fs carpeta_txt exts_txt))).
      rewrite Hk in P. symmetry in P. apply Permutation_nil_r in P.
      apply elements_empty_inv in P. apply leibniz_equiv, P.
    - intros E. rewrite E, elements_empty in Hk. cbn in Hk.
      destruct pares; [reflexivity | discriminate]. }
  split; [exact G|]. intros Hm Hl. apply G.
  unfold claves at 1. rewrite enumerar_vacio by assumption. cbn [map].
  apply leibniz_equiv. set_solver.
Qed.

(** X4.  Of the text files that share a key, the one enumerated last is the
    one the text dictionary holds and the one of the record of that key. *)
Theorem ultimo_texto_gana (lower : list N -> list N) (fs : sistema)
    (carpeta_txt : list N) (antes : list ruta) (r : ruta) (despues : list ruta) :
  enumerar fs carpeta_txt exts_txt = antes ++ r :: despues ->
  (forall r', r' ∈ despues -> lower (stem r') <> lower (stem r)) ->
  forall carpeta_img pares,
    emparejar_archivos lower fs carpeta_img carpeta_txt = devolver pares ->
    forall p, p ∈ pares -> clave lower p = lower (stem r) -> ruta_txt p = r.
Proof.
  intros He Hd ci pares Hp p Hin Hk.
  assert (Hr : recoger lower fs carpeta_txt exts_txt !! lower (stem r) = Some r)
    by (rewrite recoger_enumerar, He; apply anotar_ultima, Hd).
  destruct (emparejar_archivos_forma lower fs ci carpeta_txt) as (pares' & Hp' & _ & Hall).
  rewrite Hp in Hp'. injection Hp' as <-.
  rewrite Forall_forall in Hall. destruct (Hall p Hin) as (_ & Ht & _).
  rewrite Hk, Hr in Ht. congruence.
Qed.

Lemma ultimo_texto_gana_testigo :
  ruta_txt {| nombre := lit "a"; ruta_img := en_imgs "a.jpg";
              ruta_txt := en_txts "A.TXT" |} = en_txts "A.TXT".
Proof.
  apply (ultimo_texto_gana ascii_lower ejemplo_textos_duplicados (lit "txts")
           [en_txts "a.txt"] (en_txts "A.TXT") []
           ltac:(vm_compute; reflexivity)
           ltac:(intros r' Hr'; apply elem_of_nil in Hr'; contradiction)
           (lit "imgs")
           [ {| nombre := lit "a"; ruta_img := en_imgs "a.jpg";
                ruta_txt := en_txts "A.TXT" |} ]
           ltac:(vm_compute; reflexivity)).
  - apply list_elem_of_here.
  - vm_compute. reflexivity.
Defined.

(** ** Content escaper: what cannot appear in the output *)

Lemma escape_car_html_sin_marcado (c : N) :
  forallb (fun d => negb (es_marcado d)) (escape_car_html c) = true.
Proof.
  unfold escape_car_html, es_marcado, c_amp, c_menor, c_mayor, c_comilla, c_apostrofo.
  destruct (N.eqb_spec c 38) as [->|H1]; [reflexivity|].
  destruct (N.eqb_spec c 60) as [->|H2]; [reflexivity|].
  destruct (N.eqb_spec c 62) as [->|H3]; [reflexivity|].
  destruct (N.eqb_spec c 34) as [->|H4]; [reflexivity|].
  destruct (N.eqb_spec c 39) as [->|H5]; [reflexivity|].
  apply N.eqb_neq in H2, H3, H4, H5. cbn [forallb]. rewrite H2, H3, H4, H5. reflexivity.
Qed.

Lemma forallb_flat_map {A B} (f : A -> list B) (g : B -> bool) (l : list A) :
  (forall a, forallb g (f a) = true) -> forallb g (flat_map f l) = true.
Proof.
  intros H. induction l as [|a l IH]; [reflexivity|].
  cbn [flat_map]. rewrite forallb_app, H, IH. reflexivity.
Qed.

(** X5.  Neither the markup-escaped text nor the text field built from it
    holds a [<], a [>] or a quote character, whatever the text is: the
    field cannot open or close a tag, the enclosing script element least of
    all. *)
Theorem texto_js_sin_marcado (texto : list N) :
  forallb (fun d => negb (es_marcado d)) (html_escape texto) = true
  /\ forallb (fun d => negb (es_marcado d)) (texto_js texto) = true.
Proof.
  assert (G : forallb (fun d => negb (es_marcado d)) (html_escape texto) = true)
    by (rewrite html_escape_por_caracter;
        apply forallb_flat_map, escape_car_html_sin_marcado).
  split; [exact G|].
  unfold texto_js. rewrite escapar_js_por_caracter.
  rewrite forallb_forall in G. rewrite forallb_forall. intros d Hd.
  apply in_flat_map in Hd as (c & Hc & Hd). specialize (G c Hc).
  unfold escape_car_js in Hd. destruct (es_especial_js c).
  - destruct Hd as [<- | [<- | []]]; [reflexivity | exact G].
  - destruct Hd as [<- | []]. exact G.
Qed.

(** ** Image encoder: size and errors *)

Lemma b64encode_longitud (datos : list byte) :
  length (b64encode datos) = (4 * ((length datos + 2) / 3))%nat.
Proof.
  induction datos as [|x|x y|x y z r IH] using induccion_de_tres; try reflexivity.
  cbn [b64encode length]. rewrite IH.
  replace (S (S (S (length r))) + 2)%nat with (1 * 3 + (length r + 2))%nat by lia.
  rewrite Nat.div_add_l by discriminate. lia.
Qed.

(** X6.  For a file of [n] bytes [imagen_a_base64] returns four characters
    for every three bytes, the last group padded: [4 * ceil(n / 3)]
    characters. *)
Theorem imagen_a_base64_longitud (fs : sistema) (r : ruta) (datos : list byte)
    (s : list N) :
  contenido fs r = Some datos ->
  imagen_a_base64 fs r = devolver s ->
  length s = (4 * ((length datos + 2) / 3))%nat.
Proof.
  intros Hc. rewrite (imagen_a_base64_contenido fs r datos Hc). intros [= <-].
  rewrite length_map. apply b64encode_longitud.
Qed.

Lemma imagen_a_base64_longitud_testigo :
  length (lit "/9gACg==") = (4 * ((length [xff; xd8; x00; x0a] + 2) / 3))%nat.
Proof.
  apply (imagen_a_base64_longitud (un_archivo (en_imgs "p.jpg") [xff; xd8; x00; x0a])
           (en_imgs "p.jpg")); reflexivity.
Defined.

(** X7.  [imagen_a_base64] raises only when the file cannot be read, and
    then the [OSError] of that file: the decoding of the base-64 bytes as
    text never fails. *)
Theorem imagen_a_base64_solo_OSError (fs : sistema) (r : ruta) (e : excepcion) :
  imagen_a_base64 fs r = lanzar e <-> (e = OSError r /\ contenido fs r = None).
Proof.
  destruct (contenido fs r) as [datos|] eqn:H.
  - rewrite (imagen_a_base64_contenido fs r datos H). split; [discriminate|].
    intros [_ ?]. discriminate.
  - rewrite (imagen_a_base64_ausente fs r H). split.
    + intros [= <-]. auto.
    + intros [-> _]. reflexivity.
Qed.

(** ** Text decoder: errors and line ends *)

(** X8.  [leer_texto] raises only when the file cannot be read, and then
    the [OSError] of that file; no decoding error escapes it. *)
Theorem leer_texto_solo_OSError (fs : sistema) (r : ruta) (e : excepcion) :
  leer_texto fs r = lanzar e <-> (e = OSError r /\ contenido fs r = None).
Proof.
  destruct (contenido fs r) as [datos|] eqn:H.
  - destruct (leer_texto_legible fs r datos H) as [s ->]. split; [discriminate|].
    intros [_ ?]. discriminate.
  - rewrite (leer_texto_ausente fs r H). split.
    + intros [= <-]. auto.
    + intros [-> _]. reflexivity.
Qed.

Lemma universal_newlines_sin_CR_hasta (n : nat) (s : list N) :
  (length s <= n)%nat -> ~ In c_CR (universal_newlines s).
Proof.
  revert s. induction n as [|n IH]; intros s Hn.
  - destruct s; [intros [] | cbn in Hn; lia].
  - destruct s as [|c s]; [intros []|]. cbn [universal_newlines].
    cbn [length] in Hn. destruct (N.eqb_spec c c_CR) as [->|Hc].
    + destruct s as [|d s]; [intros [H|[]]; discriminate|].
      cbn [length] in Hn. destruct (d =? c_LF).
      * intros [H|H]; [discriminate|]. revert H. apply IH. lia.
      * intros [H|H]; [discriminate|]. revert H. apply IH. cbn [length]. lia.
    + intros [H|H]; [congruence|]. revert H. apply IH. lia.
Qed.

Lemma leer_texto_forma (fs : sistema) (r : ruta) (s : list N) :
  leer_texto fs r = devolver s -> exists t, s = universal_newlines t.
Proof.
  intros H. destruct (contenido fs r) as [datos|] eqn:Hc.
  - revert H. unfold leer_texto. cbn [leer_con].
    rewrite !(abrir_leer_contenido _ _ _ _ _ Hc). cbn [decode latin1_decode].
    destruct (utf8_decode strict datos) as [t|]; intros [= <-]; eauto.
  - rewrite (leer_texto_ausente fs r Hc) in H. discriminate.
Qed.

(** X9.  The text [leer_texto] returns holds no carriage return: every line
    end of the file, "\r\n" and "\r" included, is read as "\n". *)
Theorem leer_texto_sin_CR (fs : sistema) (r : ruta) (s : list N) :
  leer_texto fs r = devolver s -> ~ In c_CR s.
Proof.
  intros H. apply leer_texto_forma in H as [t ->].
  apply (universal_newlines_sin_CR_hasta (length t)). lia.
Qed.

Lemma leer_texto_sin_CR_testigo : ~ In c_CR [233; 10].
Proof.
  apply (leer_texto_sin_CR (un_archivo (en_txts "p.txt") [xe9; x0d; x0a])
           (en_txts "p.txt")).
  reflexivity.
Defined.

(** ** UTF-8: what is written can be read back *)

Lemma land_shiftl_bajo (a b n : N) : b < 2 ^ n -> N.land (N.shiftl a n) b = 0.
Proof.
  intros Hb. apply N.bits_inj. intros m. rewrite N.land_spec, N.bits_0.
  destruct (N.lt_ge_cases m n) as [Hm | Hm].
  - rewrite N.shiftl_spec_low by exact Hm. reflexivity.
  - destruct (N.eq_dec b 0) as [-> | Hb0]; [rewrite N.bits_0; apply andb_false_r|].
    rewrite (N.bits_above_log2 b m); [apply andb_false_r|].
    apply N.lt_le_trans with n; [|exact Hm].
    apply N.log2_lt_pow2; lia.
Qed.

Lemma lor_shiftl_suma (a b n : N) :
  b < 2 ^ n -> N.lor (N.shiftl a n) b = a * 2 ^ n + b.
Proof.
  intros Hb. pose proof (land_shiftl_bajo a b n Hb) as H0.
  rewrite <- N.lxor_lor by exact H0. rewrite <- N.add_nocarry_lxor by exact H0.
  rewrite N.shiftl_mul_pow2. reflexivity.
Qed.

Lemma land_mascara (a n : N) : N.land a (N.ones n) = a mod 2 ^ n.
Proof. apply N.land_ones. Qed.

Lemma to_N_byte_de_N (n : N) : n < 256 -> Byte.to_N (byte_de_N n) = n.
Proof.
  intros H. unfold byte_de_N. destruct (Byte.of_N n) as [b|] eqn:E.
  - apply Byte.to_of_N, E.
  - apply Byte.of_N_None_iff in E. lia.
Qed.

(** The value a lead byte and its continuation bytes stand for. *)
Lemma valor_2 (n0 n1 : N) :
  N.lor (N.shiftl (N.land n0 0x1F) 6) (N.land n1 0x3F) = (n0 mod 32) * 64 + n1 mod 64.
Proof.
  change 0x1F with (N.ones 5). change 0x3F with (N.ones 6).
  rewrite !land_mascara. change (2 ^ 5) with 32. change (2 ^ 6) with 64.
  rewrite lor_shiftl_suma; [reflexivity|]. change (2 ^ 6) with 64.
  apply N.mod_lt. discriminate.
Qed.

Lemma valor_2_aux (n1 n2 : N) :
  N.lor (N.shiftl (N.land n1 0x3F) 6) (N.land n2 0x3F) = (n1 mod 64) * 64 + n2 mod 64.
Proof.
  change 0x3F with (N.ones 6). rewrite !land_mascara. change (2 ^ 6) with 64.
  rewrite lor_shiftl_suma; [reflexivity|]. change (2 ^ 6) with 64.
  apply N.mod_lt. discriminate.
Qed.

Lemma valor_3 (n0 n1 n2 : N) :
  N.lor (N.shiftl (N.land n0 0x0F) 12)
    (N.lor (N.shiftl (N.land n1 0x3F) 6) (N.land n2 0x3F))
  = (n0 mod 16) * 4096 + (n1 mod 64) * 64 + n2 mod 64.
Proof.
  rewrite valor_2_aux. change 0x0F with (N.ones 4). rewrite land_mascara.
  change (2 ^ 4) with 16.
  rewrite lor_shiftl_suma; change (2 ^ 12) with 4096; [lia|].
  pose proof (N.mod_lt n1 64). pose proof (N.mod_lt n2 64). lia.
Qed.

Lemma valor_4 (n0 n1 n2 n3 : N) :
  N.lor (N.shiftl (N.land n0 0x07) 18)
    (N.lor (N.shiftl (N.land n1 0x3F) 12)
       (N.lor (N.shiftl (N.land n2 0x3F) 6) (N.land n3 0x3F)))
  = (n0 mod 8) * 262144 + (n1 mod 64) * 4096 + (n2 mod 64) * 64 + n3 mod 64.
Proof.
  rewrite valor_2_aux. change 0x07 with (N.ones 3). change 0x3F with (N.ones 6).
  rewrite !land_mascara. change (2 ^ 3) with 8. change (2 ^ 6) with 64.
  pose proof (N.mod_lt n1 64). pose proof (N.mod_lt n2 64). pose proof (N.mod_lt n3 64).
  rewrite (lor_shiftl_suma (n1 mod 64)); change (2 ^ 12) with 4096; [|lia].
  rewrite lor_shiftl_suma; change (2 ^ 18) with 262144; lia.
Qed.

(** Comparisons of the decoder, settled by the bounds at hand. *)
Ltac decidir_cotas :=
  repeat match goal with
         | |- context [?a <? ?b] =>
             destruct (N.ltb_spec a b); [|try (exfalso; aritmetica)];
             try (exfalso; aritmetica)
         | |- context [?a <=? ?b] =>
             destruct (N.leb_spec a b); [|try (exfalso; aritmetica)];
             try (exfalso; aritmetica)
         | |- context [?a =? ?b] =>
             destruct (N.eqb_spec a b); [try (exfalso; aritmetica)|];
             try (exfalso; aritmetica)
         end.

Lemma utf8_decode_encode_car (c : N) (bc resto : list byte) :
  utf8_encode_car c = Some bc ->
  utf8_decode strict (bc ++ resto) = cons c <$> utf8_decode strict resto.
Proof.
  unfold utf8_encode_car.
  destruct (N.ltb_spec c 0x80) as [H1|H1].
  { intros [= <-]. cbn [app utf8_decode]. rewrite to_N_byte_de_N by lia.
    apply N.ltb_lt in H1. rewrite H1. reflexivity. }
  destruct (N.ltb_spec c 0x800) as [H2|H2].
  { intros [= <-]. cbn [app utf8_decode]. unfold es_continuacion, bits_cont.
    rewrite !to_N_byte_de_N by aritmetica. rewrite valor_2.
    decidir_cotas. cbn [andb]. do 2 f_equal. aritmetica. }
  destruct (N.ltb_spec c 0x10000) as [H3|H3].
  { destruct (N.leb_spec 0xD800 c) as [H4|H4], (N.ltb_spec c 0xE000) as [H5|H5];
      cbn [andb]; try discriminate; intros [= <-]; cbn [app utf8_decode];
      unfold es_continuacion, bits_cont;
      rewrite !to_N_byte_de_N by aritmetica; rewrite valor_3;
      decidir_cotas; cbn [andb negb orb]; do 2 f_equal; aritmetica. }
  destruct (N.ltb_spec c 0x110000) as [H4|H4]; [|discriminate].
  intros [= <-]. cbn [app utf8_decode]. unfold es_continuacion, bits_cont.
  rewrite !to_N_byte_de_N by aritmetica. rewrite valor_4.
  decidir_cotas; cbn [andb negb orb]; do 2 f_equal; aritmetica.
Qed.

(** Text that the UTF-8 encoder accepts is decoded back to itself by the
    strict UTF-8 decoder. *)
Lemma utf8_decode_encode (s : list N) (b : list byte) :
  utf8_encode s = Some b -> utf8_decode strict b = Some s.
Proof.
  revert b. induction s as [|c s IH]; intros b.
  - intros [= <-]. reflexivity.
  - cbn [utf8_encode].
    destruct (utf8_encode_car c) as [bc|] eqn:Ec; [|discriminate].
    destruct (utf8_encode s) as [bs|]; [|discriminate].
    intros [= <-]. rewrite (utf8_decode_encode_car c bc bs Ec), (IH bs eq_refl).
    reflexivity.
Qed.

Lemma utf8_decode_encode_testigo :
  utf8_decode strict [x63; xc3; xa9; xe2; x82; xac; xf0; x9f; x98; x80]
  = Some [0x63; 0xE9; 0x20AC; 0x1F600].
Proof.
  apply (utf8_decode_encode [0x63; 0xE9; 0x20AC; 0x1F600]). reflexivity.
Defined.

(** X10.  A file that holds the UTF-8 encoding of a text, as the files the
    program writes do, is read by [leer_texto] as that text, with its line
    ends turned into "\n". *)
Theorem leer_texto_lee_utf8 (fs : sistema) (r : ruta) (s : list N) (datos : list byte) :
  utf8_encode s = Some datos ->
  contenido fs r = Some datos ->
  leer_texto fs r = devolver (universal_newlines s).
Proof.
  intros He Hc. unfold leer_texto. cbn [leer_con].
  rewrite (abrir_leer_contenido _ _ _ _ _ Hc). cbn [decode].
  rewrite (utf8_decode_encode s datos He). reflexivity.
Qed.

Lemma leer_texto_lee_utf8_testigo :
  leer_texto (un_archivo (en_txts "p.txt") [xc3; xa9; x0d; x0a; xe2; x82; xac])
    (en_txts "p.txt")
  = devolver (universal_newlines [0xE9; 13; 10; 0x20AC]).
Proof.
  apply (leer_texto_lee_utf8 _ _ _ [xc3; xa9; x0d; x0a; xe2; x82; xac]); reflexivity.
Defined.

(** ** UTF-8: what is read can be written *)

Ltac a_proposiciones :=
  unfold es_continuacion in *;
  repeat match goal with
         | H : negb _ = true |- _ => apply negb_true_iff in H
         | H : negb _ = false |- _ => apply negb_false_iff in H
         | H : _ && _ = true |- _ => apply andb_true_iff in H; destruct H
         | H : _ || _ = false |- _ => apply orb_false_iff in H; destruct H
         | H : (_ <? _) = true |- _ => apply N.ltb_lt in H
         | H : (_ <? _) = false |- _ => apply N.ltb_ge in H
         | H : (_ <=? _) = true |- _ => apply N.leb_le in H
         | H : (_ <=? _) = false |- _ => apply N.leb_gt in H
         | H : (_ =? _) = true |- _ => apply N.eqb_eq in H
         | H : (_ =? _) = false |- _ => apply N.eqb_neq in H
         end.

Lemma utf8_decode_codificable_hasta (n : nat) (bs : list byte) (s : list N) :
  (length bs <= n)%nat -> utf8_decode strict bs = Some s -> Forall codificable s.
Proof.
  revert bs s. induction n as [|n IH]; intros bs s Hn.
  - destruct bs; [intros [= <-]; constructor | cbn in Hn; lia].
  - destruct bs as [|b0 r0]; [intros [= <-]; constructor|].
    cbn [utf8_decode mal_formado]. unfold bits_cont.
    repeat case_match; subst; cbn [length] in *; try discriminate;
      intros Hs; apply fmap_Some in Hs as (s' & Hs' & ->);
      (constructor; [|apply IH in Hs'; [exact Hs' | cbn [length]; lia]]);
      unfold codificable; a_proposiciones;
      rewrite ?valor_4, ?valor_3, ?valor_2; split; aritmetica.
Qed.

Lemma utf8_decode_codificable (bs : list byte) (s : list N) :
  utf8_decode strict bs = Some s -> Forall codificable s.
Proof. apply (utf8_decode_codificable_hasta (length bs)). lia. Qed.

Lemma utf8_encode_car_codificable (c : N) :
  codificable c -> is_Some (utf8_encode_car c).
Proof.
  intros [H1 H2]. unfold utf8_encode_car.
  destruct (c <? 0x80); [eauto|]. destruct (c <? 0x800); [eauto|].
  destruct (N.ltb_spec c 0x10000).
  - destruct (N.leb_spec 0xD800 c), (N.ltb_spec c 0xE000); cbn [andb]; eauto.
    exfalso. apply H2. lia.
  - destruct (N.ltb_spec c 0x110000); [eauto | lia].
Qed.

Lemma utf8_encode_codificable (s : list N) :
  Forall codificable s -> is_Some (utf8_encode s).
Proof.
  induction 1 as [|c s Hc _ [bs IH]]; [eexists; reflexivity|].
  destruct (utf8_encode_car_codificable c Hc) as [bc Hbc].
  cbn [utf8_encode]. rewrite Hbc, IH. eauto.
Qed.

Lemma ascii_codificable (s : list N) :
  forallb (fun c => c <? 128) s = true -> Forall codificable s.
Proof.
  intros H. rewrite forallb_forall in H. apply List.Forall_forall. intros c Hc.
  apply H, N.ltb_lt in Hc. unfold codificable. lia.
Qed.

Lemma Forall_flat_map {A B} (P : A -> Prop) (Q : B -> Prop) (f : A -> list B)
    (l : list A) :
  (forall a, P a -> Forall Q (f a)) -> Forall P l -> Forall Q (flat_map f l).
Proof.
  intros H. induction 1 as [|a l Ha _ IH]; [constructor|].
  cbn [flat_map]. apply Forall_app. split; [apply H, Ha | exact IH].
Qed.

Lemma html_escape_codificable (s : list N) :
  Forall codificable s -> Forall codificable (html_escape s).
Proof.
  rewrite html_escape_por_caracter. apply Forall_flat_map. intros c Hc.
  unfold escape_car_html.
  repeat match goal with
         | |- context [c =? ?k] =>
             destruct (c =? k); [apply ascii_codificable; reflexivity|]
         end.
  constructor; [exact Hc | constructor].
Qed.

Lemma escapar_js_codificable (s : list N) :
  Forall codificable s -> Forall codificable (escapar_js s).
Proof.
  rewrite escapar_js_por_caracter. apply Forall_flat_map. intros c Hc.
  unfold escape_car_js. destruct (es_especial_js c).
  - constructor; [unfold codificable, c_barra_inv; lia|].
    constructor; [exact Hc | constructor].
  - constructor; [exact Hc | constructor].
Qed.

Lemma universal_newlines_Forall_hasta (P : N -> Prop) (n : nat) (s : list N) :
  P c_LF -> (length s <= n)%nat -> Forall P s -> Forall P (universal_newlines s).
Proof.
  intros HLF. revert s. induction n as [|n IH]; intros s Hn Hs.
  - destruct s; [constructor | cbn in Hn; lia].
  - destruct Hs as [|c s Hc Hs]; [constructor|]. cbn [universal_newlines].
    cbn [length] in Hn. destruct (c =? c_CR).
    + destruct Hs as [|d s Hd Hs]; [repeat constructor; exact HLF|].
      cbn [length] in Hn. destruct (d =? c_LF).
      * constructor; [exact HLF | apply IH; [lia | exact Hs]].
      * constructor; [exact HLF|]. apply IH; [cbn [length]; lia|].
        constructor; assumption.
    + constructor; [exact Hc | apply IH; [lia | exact Hs]].
Qed.

Lemma latin1_codificable (datos : list byte) : Forall codificable (map Byte.to_N datos).
Proof.
  apply List.Forall_forall. intros c Hc. apply in_map_iff in Hc as (b & <- & _).
  pose proof (to_N_menor b). unfold codificable. lia.
Qed.

(** X11.  The text [leer_texto] returns is made of code points that UTF-8
    can encode (no surrogate, none above U+10FFFF), whichever encoding
    decoded it: the text of a file never makes the writing of the document
    fail. *)
Theorem leer_texto_codificable (fs : sistema) (r : ruta) (s : list N) :
  leer_texto fs r = devolver s ->
  Forall codificable s /\ is_Some (utf8_encode (texto_js s)).
Proof.
  intros H.
  assert (G : Forall codificable s).
  { destruct (contenido fs r) as [datos|] eqn:Hc.
    - revert H. unfold leer_texto. cbn [leer_con].
      rewrite !(abrir_leer_contenido _ _ _ _ _ Hc). cbn [decode latin1_decode].
      destruct (utf8_decode strict datos) as [t|] eqn:Ht; intros [= <-].
      + apply (universal_newlines_Forall_hasta _ (length t));
          [unfold codificable, c_LF; lia | lia | apply (utf8_decode_codificable datos), Ht].
      + apply (universal_newlines_Forall_hasta _ (length (map Byte.to_N datos)));
          [unfold codificable, c_LF; lia | lia | apply latin1_codificable].
    - rewrite (leer_texto_ausente fs r Hc) in H. discriminate. }
  split; [exact G|].
  apply utf8_encode_codificable, escapar_js_codificable, html_escape_codificable, G.
Qed.

Lemma leer_texto_codificable_testigo :
  Forall codificable [233; 10] /\ is_Some (utf8_encode (texto_js [233; 10])).
Proof.
  apply (leer_texto_codificable (un_archivo (en_txts "p.txt") [xe9; x0d; x0a])
           (en_txts "p.txt")).
  reflexivity.
Defined.

(** ** Artifact assembler: the document and the first failure *)

Lemma leer_texto_decodifica (fs : sistema) (r : ruta) (datos : list byte) :
  contenido fs r = Some datos -> leer_texto fs r = devolver (decodificar_texto datos).
Proof.
  intros H. unfold leer_texto, decodificar_texto. cbn [leer_con].
  rewrite !(abrir_leer_contenido _ _ _ _ _ H). cbn [decode latin1_decode].
  destruct (utf8_decode strict datos); reflexivity.
Qed.

Lemma preparar_pagina_contenido (fs : sistema) (p : par) (img txt : list byte) :
  contenido fs (ruta_img p) = Some img -> contenido fs (ruta_txt p) = Some txt ->
  preparar_pagina fs p = devolver (pagina_de_bytes p img txt).
Proof.
  intros Hi Ht. unfold preparar_pagina.
  rewrite (imagen_a_base64_contenido fs _ _ Hi), (leer_texto_decodifica fs _ _ Ht).
  reflexivity.
Qed.

Lemma para_cada_Forall2 {A B} (f : A -> resultado B) (xs : list A) (ys : list B) :
  Forall2 (fun x y => f x = devolver y) xs ys -> para_cada f xs = devolver ys.
Proof.
  induction 1 as [|x y xs ys Hxy _ IH]; [reflexivity|].
  cbn [para_cada]. rewrite Hxy, IH. reflexivity.
Qed.

Lemma preparar_paginas_de fs pares paginas :
  paginas_de fs pares paginas ->
  para_cada (preparar_pagina fs) pares = devolver paginas.
Proof.
  intros H. apply para_cada_Forall2.
  induction H as [|p pagina pares paginas (img & txt & Hi & Ht & ->) _ IH];
    constructor; [|exact IH].
  apply preparar_pagina_contenido; assumption.
Qed.

(** X12.  When every pair is readable, the output can be opened and the
    document can be encoded, [generar_html] writes one file and changes no
    other: the UTF-8 encoding of the template around the pages, one page per
    pair in the order of the pairs, joined by a comma and a line end, each
    made of the escaped name, the base-64 text of the image bytes and the
    escaped decoded text.  Decoding the file as UTF-8 gives the document
    back. *)
Theorem generar_html_documento
    (plantilla_inicio plantilla_fin : list N) (fs : sistema) (pares : list par)
    (ruta_salida : ruta) (paginas : list (list N)) (datos : list byte) :
  paginas_de fs pares paginas ->
  escribible fs ruta_salida = true ->
  utf8_encode (plantilla_inicio ++ join (lit "," ++ [c_LF]) paginas ++ plantilla_fin)
  = Some datos ->
  exists fs',
    generar_html plantilla_inicio plantilla_fin fs pares ruta_salida = (fs', devolver tt)
    /\ contenido fs' ruta_salida = Some datos
    /\ utf8_decode strict datos
       = Some (plantilla_inicio ++ join (lit "," ++ [c_LF]) paginas ++ plantilla_fin)
    /\ forall r, r <> ruta_salida -> contenido fs' r = contenido fs r.
Proof.
  intros Hp Hw He.
  destruct (generar_html_escribe plantilla_inicio plantilla_fin fs pares ruta_salida
              paginas datos (preparar_paginas_de fs pares paginas Hp) Hw He)
    as (fs' & H1 & H2 & H3).
  exists fs'. repeat split; try assumption.
  apply utf8_decode_encode, He.
Qed.

Lemma generar_html_documento_testigo :
  exists fs',
    generar_html (lit "[") (lit "]") dos_archivos [par_ejemplo "a"] (en_txts "v.html")
    = (fs', devolver tt)
    /\ contenido fs' (en_txts "v.html")
       = utf8_encode
           (lit "[" ++ join (lit "," ++ [c_LF])
                         [pagina_de_bytes (par_ejemplo "a") [xff; xd8] [x3c; xe9]]
              ++ lit "]")
    /\ utf8_decode strict
         (default [] (utf8_encode
            (lit "[" ++ join (lit "," ++ [c_LF])
                          [pagina_de_bytes (par_ejemplo "a") [xff; xd8] [x3c; xe9]]
               ++ lit "]")))
       = Some (lit "[" ++ join (lit "," ++ [c_LF])
                 [pagina_de_bytes (par_ejemplo "a") [xff; xd8] [x3c; xe9]] ++ lit "]")
    /\ forall r, r <> en_txts "v.html" -> contenido fs' r = contenido dos_archivos r.
Proof.
  apply (generar_html_documento (lit "[") (lit "]") dos_archivos [par_ejemplo "a"]
           (en_txts "v.html")
           [pagina_de_bytes (par_ejemplo "a") [xff; xd8] [x3c; xe9]]).
  - constructor; [|constructor]. exists [xff; xd8], [x3c; xe9].
    repeat split; reflexivity.
  - reflexivity.
  - vm_compute. reflexivity.
Defined.

Lemma pagina_js_codificable (n b64 tjs : list N) :
  Forall codificable n -> Forall codificable b64 -> Forall codificable tjs ->
  Forall codificable (pagina_js n b64 tjs).
Proof.
  intros Hn Hb Ht. unfold pagina_js.
  repeat (apply Forall_app; split);
    try assumption; try (apply ascii_codificable; reflexivity).
  apply html_escape_codificable, Hn.
Qed.

Lemma join_codificable (sep : list N) (xs : list (list N)) :
  Forall codificable sep -> Forall (Forall codificable) xs ->
  Forall codificable (join sep xs).
Proof.
  intros Hs. induction 1 as [|x xs Hx Hxs IH]; [constructor|].
  cbn [join]. destruct xs as [|y xs]; [exact Hx|].
  apply Forall_app. split; [exact Hx|]. apply Forall_app. split; [exact Hs | exact IH].
Qed.

Lemma decodificar_texto_codificable (datos : list byte) :
  Forall codificable (decodificar_texto datos).
Proof.
  unfold decodificar_texto. destruct (utf8_decode strict datos) as [t|] eqn:Ht.
  - apply (universal_newlines_Forall_hasta _ (length t));
      [unfold codificable, c_LF; lia | lia | apply (utf8_decode_codificable datos), Ht].
  - apply (universal_newlines_Forall_hasta _ (length (map Byte.to_N datos)));
      [unfold codificable, c_LF; lia | lia | apply latin1_codificable].
Qed.

Lemma pagina_de_bytes_codificable (p : par) (img txt : list byte) :
  Forall codificable (nombre p) -> Forall codificable (pagina_de_bytes p img txt).
Proof.
  intros Hn. apply pagina_js_codificable; [exact Hn | |].
  - apply List.Forall_forall. intros c Hc. apply in_map_iff in Hc as (b & <- & Hb).
    pose proof (b64encode_ascii img) as A. rewrite List.Forall_forall in A.
    specialize (A b Hb). cbn beta in A. unfold codificable. lia.
  - apply escapar_js_codificable, html_escape_codificable,
      decodificar_texto_codificable.
Qed.

Lemma paginas_de_legibles (fs : sistema) (pares : list par) :
  Forall (legible fs) pares ->
  Forall (fun p => Forall codificable (nombre p)) pares ->
  exists paginas, paginas_de fs pares paginas /\ Forall (Forall codificable) paginas.
Proof.
  induction 1 as [|p pares [[img Hi] [txt Ht]] _ IH]; intros Hn.
  - exists []. split; constructor.
  - apply Forall_cons in Hn as [Hn Hns]. destruct (IH Hns) as (paginas & Hp & Hc).
    exists (pagina_de_bytes p img txt :: paginas). split.
    + constructor; [|exact Hp]. exists img, txt. auto.
    + constructor; [apply pagina_de_bytes_codificable, Hn | exact Hc].
Qed.

(** X13.  When every pair is readable and the output can be opened,
    [generar_html] ends normally and writes the output, provided the
    template and the names hold only code points UTF-8 can encode: nothing
    in the images or the texts can make it fail. *)
Theorem generar_html_termina
    (plantilla_inicio plantilla_fin : list N) (fs : sistema) (pares : list par)
    (ruta_salida : ruta) :
  Forall codificable plantilla_inicio -> Forall codificable plantilla_fin ->
  Forall (fun p => Forall codificable (nombre p)) pares ->
  Forall (legible fs) pares ->
  escribible fs ruta_salida = true ->
  exists fs',
    generar_html plantilla_inicio plantilla_fin fs pares ruta_salida = (fs', devolver tt)
    /\ is_Some (contenido fs' ruta_salida)
    /\ forall r, r <> ruta_salida -> contenido fs' r = contenido fs r.
Proof.
  intros Hi Hf Hn Hl Hw.
  destruct (paginas_de_legibles fs pares Hl Hn) as (paginas & Hp & Hc).
  destruct (utf8_encode_codificable
              (plantilla_inicio ++ join (lit "," ++ [c_LF]) paginas ++ plantilla_fin))
    as [datos He].
  { apply Forall_app. split; [exact Hi|]. apply Forall_app. split; [|exact Hf].
    apply join_codificable; [apply ascii_codificable; reflexivity | exact Hc]. }
  destruct (generar_html_escribe plantilla_inicio plantilla_fin fs pares ruta_salida
              paginas datos (preparar_paginas_de fs pares paginas Hp) Hw He)
    as (fs' & H1 & H2 & H3).
  exists fs'. rewrite H2. eauto.
Qed.

Lemma generar_html_termina_testigo :
  exists fs',
    generar_html (lit "[") (lit "]") dos_archivos [par_ejemplo "a"] (en_txts "v.html")
    = (fs', devolver tt)
    /\ is_Some (contenido fs' (en_txts "v.html"))
    /\ forall r, r <> en_txts "v.html" -> contenido fs' r = contenido dos_archivos r.
Proof.
  apply generar_html_termina.
  - apply ascii_codificable. reflexivity.
  - apply ascii_codificable. reflexivity.
  - constructor; [apply ascii_codificable; reflexivity | constructor].
  - constructor; [|constructor]. split; eexists; reflexivity.
  - reflexivity.
Defined.

Lemma para_cada_app {A B} (f : A -> resultado B) (xs1 xs2 : list A) (ys : list B) :
  para_cada f xs1 = devolver ys ->
  para_cada f (xs1 ++ xs2) = (zs <-- para_cada f xs2 ;; devolver (ys ++ zs)).
Proof.
  revert ys. induction xs1 as [|x xs1 IH]; intros ys.
  - intros [= <-]. cbn [app]. destruct (para_cada f xs2); reflexivity.
  - cbn [para_cada app]. destruct (f x) as [e|y]; [discriminate|]. cbn [ligar].
    destruct (para_cada f xs1) as [e|ys1] eqn:E; [discriminate|].
    intros [= <-]. rewrite (IH ys1 eq_refl).
    destruct (para_cada f xs2); reflexivity.
Qed.

(** X14.  The error of [generar_html] is the one of the first pair that
    cannot be read, its image before its text: [OSError] of the image when
    the image is unreadable, else of the text.  Pairs after it are not
    looked at, and nothing is written. *)
Theorem generar_html_primer_fallo
    (plantilla_inicio plantilla_fin : list N) (fs : sistema)
    (legibles : list par) (p : par) (resto : list par) (ruta_salida : ruta) :
  Forall (legible fs) legibles ->
  ~ legible fs p ->
  generar_html plantilla_inicio plantilla_fin fs (legibles ++ p :: resto) ruta_salida
  = (fs, lanzar (OSError match contenido fs (ruta_img p) with
                         | None => ruta_img p
                         | Some _ => ruta_txt p
                         end)).
Proof.
  intros Hl Hp. unfold generar_html.
  assert (Hok : exists ys, para_cada (preparar_pagina fs) legibles = devolver ys).
  { clear Hp. induction Hl as [|q qs [Hi Ht] _ [ys IH]]; [eexists; reflexivity|].
    destruct (preparar_pagina_legible fs q Hi Ht) as [y Hy].
    exists (y :: ys). cbn [para_cada]. rewrite Hy, IH. reflexivity. }
  destruct Hok as [ys Hys]. rewrite (para_cada_app _ _ _ _ Hys). cbn [para_cada].
  assert (Hf : preparar_pagina fs p
               = lanzar (OSError match contenido fs (ruta_img p) with
                                 | None => ruta_img p
                                 | Some _ => ruta_txt p
                                 end)).
  { unfold preparar_pagina. destruct (contenido fs (ruta_img p)) as [img|] eqn:Hi.
    - rewrite (imagen_a_base64_contenido fs _ _ Hi). cbn [ligar devolver].
      destruct (contenido fs (ruta_txt p)) as [txt|] eqn:Ht.
      + exfalso. apply Hp. split; [rewrite Hi | rewrite Ht]; eauto.
      + rewrite (leer_texto_ausente fs _ Ht). reflexivity.
    - rewrite (imagen_a_base64_ausente fs _ Hi). reflexivity. }
  rewrite Hf. reflexivity.
Qed.

Lemma generar_html_primer_fallo_testigo :
  generar_html (lit "[") (lit "]") dos_archivos
    ([par_ejemplo "a"] ++ par_ejemplo "b" :: [par_ejemplo "c"]) (en_txts "v.html")
  = (dos_archivos, lanzar (OSError (en_imgs "b.jpg"))).
Proof.
  apply (generar_html_primer_fallo (lit "[") (lit "]") dos_archivos
           [par_ejemplo "a"] (par_ejemplo "b") [par_ejemplo "c"] (en_txts "v.html")).
  - constructor; [|constructor]. split; eexists; reflexivity.
  - intros [[x Hx] _]. discriminate Hx.
Defined.

(** ** Folder prompt *)

Lemma obtener_carpeta_rechazadas isdir mensaje rechazadas entrada :
  Forall (rechazada isdir) rechazadas ->
  obtener_carpeta isdir mensaje (rechazadas ++ entrada)
  = let '(r, resto, escrito) := obtener_carpeta isdir mensaje entrada in
    (r, resto, avisos mensaje rechazadas ++ escrito).
Proof.
  induction 1 as [|l ls Hl _ IH].
  - cbn [app avisos flat_map]. destruct (obtener_carpeta _ _ _) as [[? ?] ?]. reflexivity.
  - cbn [app obtener_carpeta]. unfold rechazada in Hl. rewrite Hl, IH.
    destruct (obtener_carpeta _ _ entrada) as [[? ?] ?]. reflexivity.
Qed.

(** X15.  [obtener_carpeta] returns the folder of the first line that names
    a directory, leaves the lines after it unread, and before that has
    prompted once per line and printed one error line per rejected line. *)
Theorem obtener_carpeta_primera_valida (isdir : list N -> bool) (mensaje : list N)
    (rechazadas : list (list N)) (linea : list N) (resto : list (list N)) :
  Forall (rechazada isdir) rechazadas ->
  isdir (normalizar_carpeta linea) = true ->
  obtener_carpeta isdir mensaje (rechazadas ++ linea :: resto)
  = (Some (normalizar_carpeta linea), resto, avisos mensaje rechazadas ++ [mensaje]).
Proof.
  intros Hr Hl. rewrite (obtener_carpeta_rechazadas _ _ _ _ Hr).
  cbn [obtener_carpeta]. rewrite Hl. reflexivity.
Qed.

Lemma obtener_carpeta_primera_valida_testigo :
  obtener_carpeta solo_imgs mensaje_img
    ([lit "nada"; lit ""] ++ lit " '/tmp/imgs' " :: [lit "otra"])
  = (Some (lit "/tmp/imgs"), [lit "otra"],
     avisos mensaje_img [lit "nada"; lit ""] ++ [mensaje_img]).
Proof.
  apply (obtener_carpeta_primera_valida solo_imgs mensaje_img
           [lit "nada"; lit ""] (lit " '/tmp/imgs' ") [lit "otra"]).
  - repeat constructor.
  - reflexivity.
Defined.

(** X16.  Whatever is typed, [obtener_carpeta] never returns a folder that
    is not a directory: it returns the folder of a line all of whose
    predecessors were rejected, or ends with [EOFError] once every line has
    been rejected and none is left. *)
Theorem obtener_carpeta_solo_directorios (isdir : list N -> bool) (mensaje : list N)
    (entrada : list (list N)) :
  match obtener_carpeta isdir mensaje entrada with
  | (Some carpeta, resto, _) =>
      isdir carpeta = true
      /\ exists rechazadas linea,
           entrada = rechazadas ++ linea :: resto
           /\ carpeta = normalizar_carpeta linea
           /\ Forall (rechazada isdir) rechazadas
  | (None, resto, _) => resto = [] /\ Forall (rechazada isdir) entrada
  end.
Proof.
  induction entrada as [|l entrada IH]; cbn [obtener_carpeta].
  - split; [reflexivity | constructor].
  - destruct (isdir (normalizar_carpeta l)) eqn:E.
    + split; [exact E|]. exists [], l. repeat split. constructor.
    + destruct (obtener_carpeta isdir mensaje entrada) as [[[c|] resto] escrito].
      * destruct IH as (Hc & rs & linea & -> & -> & Hr). split; [exact Hc|].
        exists (l :: rs), linea. repeat split. constructor; assumption.
      * destruct IH as (-> & Hr). split; [reflexivity|]. constructor; assumption.
Qed.

(** *** What the folder line is reduced to *)

Lemma lstrip_con_prefijo (q : N -> bool) (l m : list N) :
  Forall (fun c => q c = true) l ->
  (forall c, head m = Some c -> q c = false) ->
  lstrip_con q (l ++ m) = m.
Proof.
  intros Hl Hm. induction Hl as [|c l Hc _ IH].
  - cbn [app]. destruct m as [|c m]; [reflexivity|].
    cbn [lstrip_con]. rewrite (Hm c eq_refl). reflexivity.
  - cbn [app lstrip_con]. rewrite Hc. exact IH.
Qed.

Lemma head_rev_last {A} (m : list A) : head (rev m) = last m.
Proof.
  induction m as [|x m IH]; [reflexivity|]. cbn [rev].
  destruct m as [|y m]; [reflexivity|].
  change (last (x :: y :: m)) with (last (y :: m)). rewrite <- IH.
  destruct (rev (y :: m)) eqn:E; [|reflexivity].
  apply (f_equal (@length A)) in E. rewrite length_rev in E. discriminate.
Qed.

Lemma rstrip_con_sufijo (q : N -> bool) (m r : list N) :
  Forall (fun c => q c = true) r ->
  (forall c, last m = Some c -> q c = false) ->
  rstrip_con q (m ++ r) = m.
Proof.
  intros Hr Hm. unfold rstrip_con. rewrite rev_app_distr, lstrip_con_prefijo.
  - apply rev_involutive.
  - apply List.Forall_rev, Hr.
  - intros c. rewrite head_rev_last. apply Hm.
Qed.

Lemma strip_con_medio (q : N -> bool) (l m r : list N) :
  Forall (fun c => q c = true) l -> Forall (fun c => q c = true) r ->
  m <> [] -> (forall c, en_el_borde m c -> q c = false) ->
  strip_con q (l ++ m ++ r) = m.
Proof.
  intros Hl Hr Hne Hm. unfold strip_con. rewrite lstrip_con_prefijo.
  - apply rstrip_con_sufijo; [exact Hr|]. intros c Hc. apply Hm. right. exact Hc.
  - exact Hl.
  - intros c Hc. apply Hm. left. destruct m; [congruence | exact Hc].
Qed.

Lemma en_el_borde_app (l m r : list N) (c : N) :
  m <> [] -> en_el_borde (l ++ m ++ r) c -> In c l \/ en_el_borde m c \/ In c r.
Proof.
  intros Hne [H | H].
  - destruct l as [|x l]; [|injection H as ->; left; left; reflexivity].
    destruct m as [|x m]; [congruence|]. right. left. left. exact H.
  - destruct r as [|x r] using rev_ind.
    + rewrite app_nil_r in H. destruct m as [|x m] using rev_ind; [congruence|].
      rewrite app_assoc, last_snoc in H. right. left. right.
      rewrite last_snoc. exact H.
    + rewrite !app_assoc, last_snoc in H. injection H as ->.
      right. right. apply in_app_iff. right. left. reflexivity.
Qed.

Lemma replace_escapar_espacios (p : list N) :
  ~ In c_barra_inv p ->
  replace [c_barra_inv; c_espacio] [c_espacio] (escapar_espacios p) = p
  /\ replace [c_barra_inv; c_espacio] [c_espacio] p = p.
Proof.
  unfold replace. induction p as [|c p IH]; intros Hp; [split; reflexivity|].
  destruct IH as [IH1 IH2]; [intros H; apply Hp; right; exact H|].
  assert (Hc : (c_barra_inv =? c) = false)
    by (apply N.eqb_neq; intros <-; apply Hp; left; reflexivity).
  split.
  - cbn [escapar_espacios flat_map]. destruct (N.eqb_spec c c_espacio) as [->|Hs].
    + cbn. f_equal. exact IH1.
    + cbn [app replace_desde startswith]. rewrite Hc. cbn [andb]. f_equal. exact IH1.
  - cbn [replace_desde startswith]. rewrite Hc. cbn [andb]. f_equal. exact IH2.
Qed.

Lemma escapar_espacios_borde (p : list N) (c : N) :
  (forall d, en_el_borde p d -> isspace d = false) ->
  en_el_borde (escapar_espacios p) c -> en_el_borde p c.
Proof.
  intros Hp [H | H].
  - left. destruct p as [|x p]; [discriminate|]. cbn [escapar_espacios flat_map] in H.
    destruct (N.eqb_spec x c_espacio) as [->|_].
    + specialize (Hp c_espacio (or_introl eq_refl)). discriminate.
    + exact H.
  - right. destruct p as [|x p] using rev_ind; [discriminate|].
    unfold escapar_espacios in H. rewrite flat_map_app in H. cbn [flat_map] in H.
    rewrite last_snoc. destruct (N.eqb_spec x c_espacio) as [->|_].
    + specialize (Hp c_espacio (or_intror (last_snoc _ _))). discriminate.
    + rewrite app_nil_r, last_snoc in H. exact H.
Qed.

(** X17.  A path without backslash, whose first and last characters are
    neither blank nor quotes, is what [obtener_carpeta] makes of the line
    that holds it between blanks and quotes, whether its blanks are typed
    as they are or as backslash-space, as a terminal writes a dropped
    folder. *)
Theorem normalizar_carpeta_restaura (p blancos1 comillas1 comillas2 blancos2 : list N) :
  p <> [] ->
  ~ In c_barra_inv p ->
  (forall c, en_el_borde p c -> isspace c = false /\ es_comilla c = false) ->
  Forall (fun c => isspace c = true) blancos1 ->
  Forall (fun c => isspace c = true) blancos2 ->
  Forall (fun c => es_comilla c = true) comillas1 ->
  Forall (fun c => es_comilla c = true) comillas2 ->
  normalizar_carpeta (blancos1 ++ (comillas1 ++ p ++ comillas2) ++ blancos2) = p
  /\ normalizar_carpeta
       (blancos1 ++ (comillas1 ++ escapar_espacios p ++ comillas2) ++ blancos2) = p.
Proof.
  intros Hne Hb Hp Hw1 Hw2 Hq1 Hq2.
  assert (Hcom : forall l c, Forall (fun c => es_comilla c = true) l -> In c l ->
                             isspace c = false).
  { intros l c Hl Hc. rewrite List.Forall_forall in Hl. specialize (Hl c Hc).
    unfold es_comilla in Hl. apply orb_true_iff in Hl as [Hl | Hl];
      apply N.eqb_eq in Hl; subst c; reflexivity. }
  assert (Hne' : escapar_espacios p <> []).
  { destruct p as [|x p]; [congruence|]. cbn [escapar_espacios flat_map].
    destruct (x =? c_espacio); discriminate. }
  assert (Hp' : forall c, en_el_borde (escapar_espacios p) c ->
                          isspace c = false /\ es_comilla c = false).
  { intros c Hc. apply Hp, escapar_espacios_borde; [|exact Hc].
    intros d Hd. apply Hp, Hd. }
  assert (G : forall x, x <> [] ->
                (forall c, en_el_borde x c -> isspace c = false /\ es_comilla c = false) ->
                strip_con es_comilla
                  (strip (blancos1 ++ (comillas1 ++ x ++ comillas2) ++ blancos2)) = x).
  { intros x Hx Hbx. unfold strip. rewrite strip_con_medio; try assumption.
    - apply strip_con_medio; try assumption. intros c Hc. apply Hbx, Hc.
    - destruct comillas1; [destruct x; [congruence|]|]; discriminate.
    - intros c Hc. apply en_el_borde_app in Hc as [Hc | [Hc | Hc]]; [| |exact (Hcom _ _ Hq2 Hc)|exact Hx].
      + exact (Hcom _ _ Hq1 Hc).
      + apply Hbx, Hc. }
  unfold normalizar_carpeta. cbv zeta. split.
  - rewrite (G p Hne Hp). apply replace_escapar_espacios, Hb.
  - rewrite (G _ Hne' Hp'). apply replace_escapar_espacios, Hb.
Qed.

Lemma normalizar_carpeta_restaura_testigo :
  normalizar_carpeta
    (lit " " ++ (lit "'" ++ lit "/tmp/mis paginas" ++ lit "'") ++ lit "  ")
  = lit "/tmp/mis paginas"
  /\ normalizar_carpeta
       (lit " " ++ (lit "'" ++ escapar_espacios (lit "/tmp/mis paginas") ++ lit "'")
          ++ lit "  ")
     = lit "/tmp/mis paginas".
Proof.
  apply normalizar_carpeta_restaura.
  - discriminate.
  - vm_compute. intuition discriminate.
  - intros c [H | H]; vm_compute in H; injection H as <-; split; reflexivity.
  - repeat constructor.
  - repeat constructor.
  - repeat constructor.
  - repeat constructor.
Defined.

(** ** Entry point *)

Lemma startswith_app (p s : list N) : startswith p (p ++ s) = true.
Proof.
  induction p as [|c p IH]; [reflexivity|].
  cbn [app startswith]. rewrite N.eqb_refl, IH. reflexivity.
Qed.

Lemma endswith_app (suf s : list N) : endswith suf (s ++ suf) = true.
Proof. unfold endswith. rewrite rev_app_distr. apply startswith_app. Qed.

Lemma nombre_de_salida_html_aux (linea : list N) :
  endswith (lit ".html") (nombre_de_salida linea) = true.
Proof.
  unfold nombre_de_salida. cbv zeta.
  generalize (match strip linea with
              | [] => lit "visor_transcripciones.html"
              | _ :: _ => strip linea
              end).
  intros n. destruct (endswith (lit ".html") n) eqn:E; [exact E | apply endswith_app].
Qed.

(** X18.  The output name always ends with ".html" and is never empty: a
    blank line gives visor_transcripciones.html, a name that already ends
    with ".html" (in lower case) is kept as typed, and any other name gets
    ".html" appended. *)
Theorem nombre_de_salida_html (linea : list N) :
  endswith (lit ".html") (nombre_de_salida linea) = true
  /\ nombre_de_salida linea <> []
  /\ (strip linea = [] -> nombre_de_salida linea = lit "visor_transcripciones.html")
  /\ (strip linea <> [] ->
      nombre_de_salida linea
      = if endswith (lit ".html") (strip linea) then strip linea
        else strip linea ++ lit ".html").
Proof.
  unfold nombre_de_salida. cbv zeta.
  assert (E : endswith (lit ".html")
                (if endswith (lit ".html") (strip linea) then strip linea
                 else strip linea ++ lit ".html") = true).
  { destruct (endswith (lit ".html") (strip linea)) eqn:E; [exact E|].
    apply endswith_app. }
  destruct (strip linea) as [|c s] eqn:Hs.
  - repeat split; try reflexivity; [discriminate | congruence].
  - repeat split; try congruence; try exact E.
    destruct (endswith (lit ".html") (c :: s)); [discriminate|].
    destruct s; discriminate.
Qed.

Lemma startswith_hasta_diagonal (p s : list N) :
  ~ In c_diagonal p -> startswith p s = true -> startswith p (hasta_diagonal s) = true.
Proof.
  revert s. induction p as [|c p IH]; intros s Hp; [reflexivity|].
  destruct s as [|d s]; [discriminate|]. cbn [startswith hasta_diagonal].
  intros H. apply andb_true_iff in H as [H1 H2]. apply N.eqb_eq in H1. subst d.
  assert (Hc : (c =? c_diagonal) = false)
    by (apply N.eqb_neq; intros ->; apply Hp; left; reflexivity).
  rewrite Hc. cbn [startswith]. rewrite N.eqb_refl. cbn [andb].
  apply IH; [intros H; apply Hp; right; exact H | exact H2].
Qed.

Lemma endswith_basename (suf p : list N) :
  ~ In c_diagonal suf -> endswith suf p = true -> endswith suf (basename p) = true.
Proof.
  unfold endswith, basename. intros Hs H. rewrite rev_involutive.
  apply startswith_hasta_diagonal; [|exact H].
  intros Hin. apply Hs, in_rev, Hin.
Qed.

Lemma endswith_os_path_join (suf a b : list N) :
  endswith suf b = true -> endswith suf (os_path_join a b) = true.
Proof.
  intros H. unfold os_path_join.
  assert (G : forall x, endswith suf (x ++ b) = true).
  { intros x. unfold endswith in *. rewrite rev_app_distr.
    revert H. generalize (rev suf) (rev b) (rev x). clear.
    intros p. induction p as [|c p IH]; intros s x; [reflexivity|].
    destruct s as [|d s]; [discriminate|]. cbn [app startswith].
    intros H. apply andb_true_iff in H as [-> H]. apply (IH s x), H. }
  destruct (startswith [c_diagonal] b); [exact H|].
  destruct (match a with [] => true | _ => endswith [c_diagonal] a end); [apply G|].
  rewrite app_assoc. apply G.
Qed.

(** The final component of the output path ends with ".html". *)
Lemma ruta_de_salida_html (cwd linea : list N) :
  endswith (lit ".html")
    (archivo (ruta_de_cadena (os_path_join cwd (nombre_de_salida linea)))) = true.
Proof.
  cbn [ruta_de_cadena archivo]. apply endswith_basename.
  - vm_compute. intuition discriminate.
  - apply endswith_os_path_join, nombre_de_salida_html_aux.
Qed.




Lemma generar_html_solo_salida
    (plantilla_inicio plantilla_fin : list N) (fs : sistema) (pares : list par)
    (ruta_salida r : ruta) :
  r <> ruta_salida ->
  contenido (generar_html plantilla_inicio plantilla_fin fs pares ruta_salida).1 r
  = contenido fs r.
Proof.
  intros Hr. unfold generar_html.
  destruct (para_cada (preparar_pagina fs) pares) as [e|paginas]; [reflexivity|].
  cbv zeta. unfold escribir. destruct (escribible fs ruta_salida); [|reflexivity].
  cbv zeta. destruct (utf8_encode _); cbn [fst contenido];
    rewrite decide_False by exact Hr; reflexivity.
Qed.

(** X20.  However a run of [main] ends, every file whose name does not end
    with ".html" holds what it held before: the images and the
    transcriptions that were read are never overwritten. *)
Theorem main_respeta_fuentes (lower : list N -> list N) (isdir : list N -> bool)
    (cwd plantilla_inicio plantilla_fin : list N) (fs : sistema)
    (entrada : list (list N)) (r : ruta) :
  endswith (lit ".html") (archivo r) = false ->
  contenido (main lower isdir cwd plantilla_inicio plantilla_fin fs entrada).1 r
  = contenido fs r.
Proof.
  intros Hr. unfold main.
  destruct (obtener_carpeta isdir mensaje_img entrada) as [[[ci|] e1] o1]; [|reflexivity].
  destruct (obtener_carpeta isdir mensaje_txt e1) as [[[ct|] e2] o2]; [|reflexivity].
  destruct (emparejar_archivos lower fs ci ct) as [e|[|p pares]]; try reflexivity.
  destruct e2 as [|linea e2]; [reflexivity|]. cbv zeta.
  pose proof (generar_html_solo_salida plantilla_inicio plantilla_fin fs (p :: pares)
                (ruta_de_cadena (os_path_join cwd (nombre_de_salida linea))) r) as G.
  destruct (generar_html _ _ _ _ _) as [fs' [e|u]]; cbn [fst] in *; apply G;
    intros ->; rewrite ruta_de_salida_html in Hr; discriminate.
Qed.

Lemma main_respeta_fuentes_testigo :
  contenido
    (main ascii_lower imgs_o_txts (lit "/home") (lit "[") (lit "]")
       carpetas_con_un_par [lit "imgs"; lit "txts"; lit "visor"]).1 (en_imgs "a.jpg")
  = contenido carpetas_con_un_par (en_imgs "a.jpg").
Proof.
  apply main_respeta_fuentes. reflexivity.
Defined.

Example main_ejemplo :
  let '(fs', fin) :=
    main ascii_lower imgs_o_txts (lit "/home") (lit "[") (lit "]")
      carpetas_con_un_par [lit "imgs"; lit "txts"; lit "visor"] in
  fin = Termina
  /\ contenido fs' {| carpeta := lit "/home"; archivo := lit "visor.html" |}
     = utf8_encode
         (lit "[" ++ pagina_de_bytes (par_ejemplo "a") [xff; xd8] [x3c; xe9] ++ lit "]").
Proof. vm_compute. split; reflexivity. Qed.

(** ** More on the image text, the records and the output *)

Lemma sexteto_es_base64 (n : N) : n < 64 -> es_base64 (Byte.to_N (sexteto n)) = true.
Proof.
  intros H. destruct (sexteto_valor n H) as (Hv & _ & _).
  unfold es_base64. rewrite Hv. reflexivity.
Qed.

(** X21.  The text [imagen_a_base64] returns holds only letters, digits,
    [+], [/] and the padding [=]: whatever the image bytes are, it cannot
    end the double-quoted string of the data URI it is put in. *)
Theorem imagen_a_base64_alfabeto (fs : sistema) (r : ruta) (s : list N) :
  imagen_a_base64 fs r = devolver s ->
  forallb es_base64 s = true
  /\ ~ In c_comilla s /\ ~ In c_barra_inv s /\ ~ In c_LF s.
Proof.
  intros H.
  assert (G : forallb es_base64 s = true).
  { destruct (contenido fs r) as [datos|] eqn:Hc.
    - rewrite (imagen_a_base64_contenido fs r datos Hc) in H. injection H as <-.
      clear Hc. induction datos as [|x|x y|x y z d IH] using induccion_de_tres.
      + reflexivity.
      + pose proof (to_N_menor x). cbn [b64encode map forallb].
        rewrite !sexteto_es_base64 by aritmetica. reflexivity.
      + pose proof (to_N_menor x). pose proof (to_N_menor y).
        cbn [b64encode map forallb]. rewrite !sexteto_es_base64 by aritmetica.
        reflexivity.
      + pose proof (to_N_menor x). pose proof (to_N_menor y). pose proof (to_N_menor z).
        cbn [b64encode map forallb]. rewrite !sexteto_es_base64 by aritmetica.
        exact IH.
    - rewrite (imagen_a_base64_ausente fs r Hc) in H. discriminate. }
  split; [exact G|]. rewrite forallb_forall in G.
  repeat split; intros Hin; apply G in Hin; discriminate.
Qed.

Lemma imagen_a_base64_alfabeto_testigo :
  forallb es_base64 (lit "/9gACg==") = true
  /\ ~ In c_comilla (lit "/9gACg==") /\ ~ In c_barra_inv (lit "/9gACg==")
  /\ ~ In c_LF (lit "/9gACg==").
Proof.
  apply (imagen_a_base64_alfabeto (un_archivo (en_imgs "p.jpg") [xff; xd8; x00; x0a])
           (en_imgs "p.jpg")).
  reflexivity.
Defined.

Lemma NoDup_map_inv {A B} (f : A -> B) (l : list A) : NoDup (map f l) -> NoDup l.
Proof.
  induction l as [|x l IH]; [constructor|]. cbn [map]. intros H.
  apply NoDup_cons in H as [Hx Hl]. apply NoDup_cons. split; [|apply IH, Hl].
  intros Hin. apply Hx, list_elem_of_In, in_map, list_elem_of_In, Hin.
Qed.

(** X22.  No file is used twice: the image paths of the records are
    pairwise distinct, and so are their text paths. *)
Theorem emparejar_archivos_sin_repetir (lower : list N -> list N) (fs : sistema)
    (carpeta_img carpeta_txt : list N) (pares : list par) :
  emparejar_archivos lower fs carpeta_img carpeta_txt = devolver pares ->
  NoDup (map ruta_img pares) /\ NoDup (map ruta_txt pares).
Proof.
  intros Hp.
  destruct (emparejar_archivos_forma lower fs carpeta_img carpeta_txt)
    as (pares' & Hp' & Hk & Hall).
  rewrite Hp in Hp'. injection Hp' as <-.
  assert (Hnd : NoDup (map (clave lower) pares))
    by (rewrite Hk, merge_sort_Permutation; apply NoDup_elements).
  assert (Ei : map (clave lower) pares
               = map (fun r => lower (stem r)) (map ruta_img pares)).
  { rewrite map_map. apply map_ext_in. intros p Hin.
    rewrite List.Forall_forall in Hall. destruct (Hall p Hin) as (_ & _ & Hn).
    unfold clave. rewrite Hn. reflexivity. }
  assert (Et : map (clave lower) pares
               = map (fun r => lower (stem r)) (map ruta_txt pares)).
  { rewrite map_map. apply map_ext_in. intros p Hin.
    rewrite List.Forall_forall in Hall. destruct (Hall p Hin) as (_ & Ht & _).
    apply recoger_lookup in Ht as [_ Ht]. symmetry. exact Ht. }
  split.
  - rewrite Ei in Hnd. apply NoDup_map_inv in Hnd. exact Hnd.
  - rewrite Et in Hnd. apply NoDup_map_inv in Hnd. exact Hnd.
Qed.

Lemma emparejar_archivos_sin_repetir_testigo :
  NoDup [en_imgs "pagina_001.jpg"; en_imgs "PAGINA_002.JPG"]
  /\ NoDup [en_txts "pagina_001.txt"; en_txts "pagina_002.txt"].
Proof.
  apply (emparejar_archivos_sin_repetir ascii_lower ejemplo_spec (lit "imgs") (lit "txts")
           [ {| nombre := lit "pagina_001";
                ruta_img := en_imgs "pagina_001.jpg";
                ruta_txt := en_txts "pagina_001.txt" |};
             {| nombre := lit "PAGINA_002";
                ruta_img := en_imgs "PAGINA_002.JPG";
                ruta_txt := en_txts "pagina_002.txt" |} ]).
  vm_compute. reflexivity.
Defined.

(** X23.  When every pair is readable but the output cannot be opened for
    writing, [generar_html] raises the [OSError] of the output path, after
    all the reading, and leaves the file system as it was. *)
Theorem generar_html_salida_cerrada
    (plantilla_inicio plantilla_fin : list N) (fs : sistema) (pares : list par)
    (ruta_salida : ruta) :
  Forall (legible fs) pares ->
  escribible fs ruta_salida = false ->
  generar_html plantilla_inicio plantilla_fin fs pares ruta_salida
  = (fs, lanzar (OSError ruta_salida)).
Proof.
  intros Hl Hw. unfold generar_html.
  assert (Hok : exists ys, para_cada (preparar_pagina fs) pares = devolver ys).
  { induction Hl as [|q qs [Hi Ht] _ [ys IH]]; [eexists; reflexivity|].
    destruct (preparar_pagina_legible fs q Hi Ht) as [y Hy].
    exists (y :: ys). cbn [para_cada]. rewrite Hy, IH. reflexivity. }
  destruct Hok as [ys ->]. cbv zeta. unfold devolver at 1. cbv iota beta.
  unfold escribir. rewrite Hw. reflexivity.
Qed.

Lemma generar_html_salida_cerrada_testigo :
  generar_html (lit "[") (lit "]") solo_lectura [par_ejemplo "a"] (en_txts "v.html")
  = (solo_lectura, lanzar (OSError (en_txts "v.html"))).
Proof.
  apply generar_html_salida_cerrada.
  - constructor; [|constructor]. split; eexists; reflexivity.
  - reflexivity.
Defined.

Lemma generar_html_devuelve_salida
    (plantilla_inicio plantilla_fin : list N) (fs fs' : sistema) (pares : list par)
    (ruta_salida : ruta) (u : unit) :
  generar_html plantilla_inicio plantilla_fin fs pares ruta_salida = (fs', devolver u) ->
  is_Some (contenido fs' ruta_salida).
Proof.
  unfold generar_html.
  destruct (para_cada (preparar_pagina fs) pares) as [e|paginas]; [discriminate|].
  cbv zeta. unfold escribir. destruct (escribible fs ruta_salida); [|discriminate].
  cbv zeta. destruct (utf8_encode _) as [datos|]; [|discriminate].
  intros [= <- _]. cbn [contenido]. rewrite decide_True by reflexivity. eauto.
Qed.

(** X24.  When [main] ends normally, it has written a file whose name ends
    with ".html". *)
Theorem main_termina_con_salida (lower : list N -> list N) (isdir : list N -> bool)
    (cwd plantilla_inicio plantilla_fin : list N) (fs fs' : sistema)
    (entrada : list (list N)) :
  main lower isdir cwd plantilla_inicio plantilla_fin fs entrada = (fs', Termina) ->
  exists r, endswith (lit ".html") (archivo r) = true /\ is_Some (contenido fs' r).
Proof.
  unfold main.
  destruct (obtener_carpeta isdir mensaje_img entrada) as [[[ci|] e1] o1]; [|discriminate].
  destruct (obtener_carpeta isdir mensaje_txt e1) as [[[ct|] e2] o2]; [|discriminate].
  destruct (emparejar_archivos lower fs ci ct) as [e|[|p pares]]; try discriminate.
  destruct e2 as [|linea e2]; [discriminate|]. cbv zeta.
  destruct (generar_html _ _ _ _ _) as [fs'' [e|u]] eqn:G; [discriminate|].
  intros [= <-]. exists (ruta_de_cadena (os_path_join cwd (nombre_de_salida linea))).
  split; [apply ruta_de_salida_html|].
  apply (generar_html_devuelve_salida _ _ _ _ _ _ _ G).
Qed.

Lemma main_termina_con_salida_testigo :
  exists r, endswith (lit ".html") (archivo r) = true
            /\ is_Some (contenido
                 (main ascii_lower imgs_o_txts (lit "/home") (lit "[") (lit "]")
                    carpetas_con_un_par [lit "imgs"; lit "txts"; lit "visor"]).1 r).
Proof.
  apply (main_termina_con_salida ascii_lower imgs_o_txts (lit "/home") (lit "[") (lit "]")
           carpetas_con_un_par _ [lit "imgs"; lit "txts"; lit "visor"]).
  vm_compute. reflexivity.
Defined.

(** ** File pairer: the keys of the records and the keys present *)

Lemma sufijo_descubierto (pre ext : list N) :
  ~ In c_punto ext -> pre <> [] -> ext <> [] ->
  sufijo (pre ++ c_punto :: ext) = c_punto :: ext.
Proof.
  intros Hd Hp He. unfold sufijo. rewrite rfind_ultimo by exact Hd.
  assert (L1 : (0 < length pre)%nat) by (destruct pre; [congruence | cbn; lia]).
  assert (L2 : (0 < length ext)%nat) by (destruct ext; [congruence | cbn; lia]).
  assert (L3 : (length pre <? length (pre ++ c_punto :: ext) - 1)%nat = true)
    by (apply Nat.ltb_lt; rewrite length_app; cbn [length]; lia).
  apply Nat.ltb_lt in L1. rewrite L1, L3. cbn [andb]. apply drop_app_length.
Qed.

Lemma sufijo_partes (dir n : list N) :
  sufijo n <> [] -> n = stem {| carpeta := dir; archivo := n |} ++ sufijo n.
Proof.
  unfold sufijo, stem. cbn [archivo]. destruct (rfind c_punto n) as [i|]; [|congruence].
  destruct (Nat.ltb 0 i && Nat.ltb i (length n - 1)); [|congruence].
  intros _. symmetry. apply take_drop.
Qed.

Lemma es_de_extension_iff (exts : list (list N)) (n : list N) :
  es_de_extension exts n = true
  <-> exists e, In e exts /\ ascii_lower (sufijo n) = c_punto :: e.
Proof.
  unfold es_de_extension. rewrite existsb_exists. split.
  - intros (e & He & H). apply bool_decide_eq_true in H. eauto.
  - intros (e & He & H). exists e. split; [exact He | apply bool_decide_eq_true, H].
Qed.

(** The keys the code collects are the keys present, for a folder named
    without pattern characters whose files of the extensions meant are
    visible and spelled as the patterns expect. *)
Lemma claves_son_presentes (lower : list N -> list N) (fs : sistema) (dir : list N)
    (exts escritas : list (list N)) :
  escrituras_de exts escritas ->
  has_magic dir = false ->
  bien_escritas exts escritas (listdir fs dir) = true ->
  claves lower fs dir (map (fun e => c_asterisco :: c_punto :: e) escritas)
  = claves_presentes lower fs dir exts.
Proof.
  intros Hesc Hm Hb. apply set_eq. intros k. unfold claves, claves_presentes.
  rewrite !elem_of_list_to_set, !list_elem_of_In, !in_map_iff. split.
  - intros (r & <- & Hr). apply list_elem_of_In in Hr.
    assert (Hesc' : Forall (fun e => ~ In c_asterisco e /\ ~ In c_punto e /\ e <> [])
                      escritas)
      by (eapply Forall_impl; [exact Hesc | intros e (? & ? & ? & _); auto]).
    destruct (enumerar_descubierto fs dir escritas r Hesc' Hr)
      as (pre & ext & He & Hd & Ha & Hl & Hh & Hs).
    rewrite (carpetas_de_sin_patron fs dir Hm) in Hd.
    apply list_elem_of_singleton in Hd.
    exists (archivo r). split.
    + reflexivity.
    + apply filter_In. rewrite <- Hd. split; [apply list_elem_of_In, Hl|].
      unfold escrituras_de in Hesc. rewrite List.Forall_forall in Hesc.
      destruct (Hesc ext (proj1 (list_elem_of_In _ _) He)) as (_ & Hp & Hne & Hin).
      apply es_de_extension_iff. exists (ascii_lower ext). split; [exact Hin|].
      rewrite Ha, sufijo_descubierto; [reflexivity | exact Hp | | exact Hne].
      intros ->. rewrite Ha in Hh. cbn in Hh. discriminate.
  - intros (n & <- & Hn). apply filter_In in Hn as [Hn He].
    unfold bien_escritas in Hb. rewrite forallb_forall in Hb.
    specialize (Hb n Hn). rewrite He in Hb. cbn [implb] in Hb.
    apply andb_true_iff in Hb as [Hh Hx]. apply negb_true_iff in Hh.
    apply existsb_exists in Hx as (e & Hin & Hx). apply bool_decide_eq_true in Hx.
    exists {| carpeta := dir; archivo := n |}. split; [reflexivity|].
    apply list_elem_of_In, enumerar_glob. exists (c_asterisco :: c_punto :: e).
    split; [apply list_elem_of_In;
            apply (in_map (fun e => c_asterisco :: c_punto :: e)), Hin|].
    unfold escrituras_de in Hesc. rewrite List.Forall_forall in Hesc.
    destruct (Hesc e Hin) as (Ha & Hp & Hne & _).
    apply glob_asterisco; [intros [Hd | Hd]; [discriminate | auto]|].
    exists dir, n. rewrite (carpetas_de_sin_patron fs dir Hm).
    repeat split; [apply list_elem_of_here | apply list_elem_of_In, Hn | exact Hh|].
    exists (stem {| carpeta := dir; archivo := n |}). rewrite <- Hx.
    apply sufijo_partes. rewrite Hx. discriminate.
Qed.

Lemma escrituras_de_imagen : escrituras_de extensiones_imagen extensiones_img.
Proof. repeat constructor; try discriminate; vm_compute; intuition discriminate. Qed.

Lemma escrituras_de_texto : escrituras_de extensiones_texto extensiones_txt.
Proof. repeat constructor; try discriminate; vm_compute; intuition discriminate. Qed.

(** C1 (counterexample).  The produced names are not the common keys: for
    the image PAGINA_002.JPG and the text pagina_002.txt the one record is
    named PAGINA_002, while the one key present in both folders is
    pagina_002.  (On these ASCII names [str.lower] is [ascii_lower].) *)
Lemma nombres_no_son_claves :
  ~ nombres_son_claves ascii_lower
      (directorio [lit "PAGINA_002.JPG"] [lit "pagina_002.txt"])
      (lit "imgs") (lit "txts").
Proof.
  intros H.
  assert (E : emparejar_archivos ascii_lower
                (directorio [lit "PAGINA_002.JPG"] [lit "pagina_002.txt"])
                (lit "imgs") (lit "txts")
              = devolver [ {| nombre := lit "PAGINA_002";
                              ruta_img := en_imgs "PAGINA_002.JPG";
                              ruta_txt := en_txts "pagina_002.txt" |} ])
    by (vm_compute; reflexivity).
  assert (Hno : bool_decide
                  (lit "PAGINA_002"
                     ∈ claves_presentes ascii_lower
                         (directorio [lit "PAGINA_002.JPG"] [lit "pagina_002.txt"])
                         (lit "imgs") extensiones_imagen
                       ∩ claves_presentes ascii_lower
                           (directorio [lit "PAGINA_002.JPG"] [lit "pagina_002.txt"])
                           (lit "txts") extensiones_texto) = false)
    by (vm_compute; reflexivity).
  apply bool_decide_eq_false in Hno. apply Hno.
  apply (H _ E). cbn [map nombre]. apply list_elem_of_here.
Qed.

(** C1.  For two folders named without pattern characters, whose image
    files (extension jpg or jpeg in any letter case) and text files
    (extension txt in any letter case) are visible and spell the extension
    jpg, JPG, jpeg, JPEG, resp. txt, TXT: the pairing returns a list whose
    keys (the lower-cased names) are exactly the keys present in both
    folders, one record per common key, in strictly ascending order of the
    key. *)
Theorem emparejar_archivos_claves (lower : list N -> list N) (fs : sistema)
    (carpeta_img carpeta_txt : list N) :
  has_magic carpeta_img = false ->
  has_magic carpeta_txt = false ->
  bien_escritas extensiones_imagen extensiones_img (listdir fs carpeta_img) = true ->
  bien_escritas extensiones_texto extensiones_txt (listdir fs carpeta_txt) = true ->
  exists pares,
    emparejar_archivos lower fs carpeta_img carpeta_txt = devolver pares
    /\ (forall k, k ∈ map (clave lower) pares <->
                  k ∈ claves_presentes lower fs carpeta_img extensiones_imagen
                        ∩ claves_presentes lower fs carpeta_txt extensiones_texto)
    /\ length pares
       = size (claves_presentes lower fs carpeta_img extensiones_imagen
                 ∩ claves_presentes lower fs carpeta_txt extensiones_texto)
    /\ StronglySorted str_lt (map (clave lower) pares)
    /\ NoDup (map (clave lower) pares).
Proof.
  intros Mi Mt Bi Bt.
  destruct (emparejar_archivos_forma lower fs carpeta_img carpeta_txt)
    as (pares & Hp & Hk & _).
  change exts_img with (map (fun e => c_asterisco :: c_punto :: e) extensiones_img) in Hk.
  change exts_txt with (map (fun e => c_asterisco :: c_punto :: e) extensiones_txt) in Hk.
  rewrite (claves_son_presentes lower fs carpeta_img _ _ escrituras_de_imagen Mi Bi),
    (claves_son_presentes lower fs carpeta_txt _ _ escrituras_de_texto Mt Bt) in Hk.
  exists pares. split; [exact Hp|].
  set (comunes := claves_presentes lower fs carpeta_img extensiones_imagen
                    ∩ claves_presentes lower fs carpeta_txt extensiones_texto) in *.
  assert (Hnd : NoDup (map (clave lower) pares)).
  { rewrite Hk, merge_sort_Permutation. apply NoDup_elements. }
  split; [|split; [|split; [|exact Hnd]]].
  - intros k. rewrite Hk, merge_sort_Permutation. apply elem_of_elements.
  - rewrite <- (length_map (clave lower)), Hk, merge_sort_Permutation. reflexivity.
  - apply ordenada_sin_repetidos; [|exact Hnd].
    rewrite Hk. apply (StronglySorted_merge_sort str_le).
Qed.

Lemma emparejar_archivos_claves_testigo :
  exists pares,
    emparejar_archivos ascii_lower ejemplo_spec (lit "imgs") (lit "txts") = devolver pares
    /\ (forall k, k ∈ map (clave ascii_lower) pares <->
                  k ∈ claves_presentes ascii_lower ejemplo_spec (lit "imgs")
                        extensiones_imagen
                        ∩ claves_presentes ascii_lower ejemplo_spec (lit "txts")
                            extensiones_texto)
    /\ length pares
       = size (claves_presentes ascii_lower ejemplo_spec (lit "imgs") extensiones_imagen
                 ∩ claves_presentes ascii_lower ejemplo_spec (lit "txts")
                     extensiones_texto)
    /\ StronglySorted str_lt (map (clave ascii_lower) pares)
    /\ NoDup (map (clave ascii_lower) pares).
Proof.
  apply emparejar_archivos_claves; reflexivity.
Defined.

(** Outside those conditions.  A mixed-case extension is not among the four
    patterns: the image a.Jpg is not discovered, though its key is present
    in both folders. *)
Example emparejar_archivos_extension_mixta :
  emparejar_archivos ascii_lower (directorio [lit "a.Jpg"] [lit "a.txt"])
    (lit "imgs") (lit "txts") = devolver []
  /\ bool_decide
       (lit "a" ∈ claves_presentes ascii_lower (directorio [lit "a.Jpg"] [lit "a.txt"])
                    (lit "imgs") extensiones_imagen
                  ∩ claves_presentes ascii_lower (directorio [lit "a.Jpg"] [lit "a.txt"])
                      (lit "txts") extensiones_texto) = true.
Proof. split; vm_compute; reflexivity. Qed.

(** A folder name with pattern characters is read as a pattern: for the
    folder im[g]s beside a folder imgs, the images paired are those of
    imgs. *)
Example emparejar_archivos_carpeta_patron :
  emparejar_archivos ascii_lower carpetas_con_patron (lit "im[g]s") (lit "txts")
  = devolver [ {| nombre := lit "a";
                  ruta_img := en_imgs "a.jpg";
                  ruta_txt := en_txts "a.txt" |} ].
Proof. vm_compute. reflexivity. Qed.
